(** * Feature visualisation by activation maximisation

    A shallow embedding of the class [FeatureVisualizer] of the notebook
    [10_feature_visualization.ipynb]: its two methods
    [create_feature_maximizer] and [get_mean_layer_activations], together with
    the part of Python, numpy and torch they run on.

    - Arrays are numpy's: a shape and a value at every index, in exact real
      arithmetic (the notebook computes in float32). The upscaling factor is
      a rational and its powers are exact.
    - The torch world is a state: the leaf tensors (the parameters of the
      models and the image variables), their gradient buffers, the forward
      hooks installed on modules, the Python lists the hooks append to, and
      a log of the library calls made. A method is a function from the world
      to a result, a value or the exception raised, and the world it leaves.
    - Whatever is third-party and numerical (the layers of the model,
      skimage's [resize], the derivative computed by autograd, Adam's update
      rule, PIL and torchvision's transforms) is a parameter of the
      development.
    - The numbers of steps and the image size are naturals; what the
      methods print is left out.

    The definitions come first, then the lemmas and the statements about
    the two methods. *)

From Stdlib Require Import Reals List ZArith QArith Qround Qpower Lia Lra Psatz.
From Stdlib Require Import Bool Arith FunctionalExtensionality.
From Stdlib Require String.
Import ListNotations.

Local Close Scope Q_scope.
Local Open Scope nat_scope.

(* ================================================================= *)
(** ** Python results *)

(** The exceptions the libraries raise. [LibraryError] stands for any error
    raised inside a third-party routine that is a parameter here. *)
Inductive exn : Type :=
| IndexError
| AxisError
| ValueError
| RuntimeError
| OSError
| LibraryError (code : nat).

Inductive result (A : Type) : Type :=
| Ok (a : A)
| Raise (e : exn).
Arguments Ok {A} a.
Arguments Raise {A} e.

Definition rbind {A B} (r : result A) (f : A -> result B) : result B :=
  match r with
  | Ok a => f a
  | Raise e => Raise e
  end.

Declare Scope res_scope.
Delimit Scope res_scope with res.
Notation "x <- r ; k" := (rbind r (fun x => k))
  (at level 61, r at next level, right associativity) : res_scope.

(** [seq[i]] for a Python sequence and an integer index: a negative index
    counts from the end, an index outside [-len, len) raises [IndexError]. *)
Definition py_getitem {A} (l : list A) (i : Z) : result A :=
  let n := Z.of_nat (length l) in
  if ((- n <=? i) && (i <? n))%Z
  then match nth_error l (Z.to_nat (i mod n)) with
       | Some a => Ok a
       | None => Raise IndexError
       end
  else Raise IndexError.

Definition valid_index {A} (l : list A) (i : Z) : Prop :=
  (- Z.of_nat (length l) <= i < Z.of_nat (length l))%Z.

(* ================================================================= *)
(** ** numpy arrays *)

Record ndarray : Type := mk_ndarray {
  shape : list nat;
  get : list nat -> R
}.

Definition ndim (a : ndarray) : nat := length (shape a).

(** Sum of [f 0 + ... + f (n-1)]. *)
Fixpoint sum_upto (n : nat) (f : nat -> R) : R :=
  match n with
  | O => 0%R
  | S k => (sum_upto k f + f k)%R
  end.

Definition sum2 (h w : nat) (f : nat -> nat -> R) : R :=
  sum_upto h (fun i => sum_upto w (fun j => f i j)).

Definition mean2 (h w : nat) (f : nat -> nat -> R) : R :=
  (sum2 h w f / INR (h * w))%R.

(** Population standard deviation, numpy's default ([ddof = 0]). *)
Definition std2 (h w : nat) (f : nat -> nat -> R) : R :=
  sqrt (mean2 h w (fun i j => Rsqr (f i j - mean2 h w f))).

(** [a.squeeze()]: every axis of extent one is dropped. The index into the
    squeezed array is re-expanded with a zero at each dropped axis. *)
Fixpoint unsqueeze_index (sh : list nat) (idx : list nat) : list nat :=
  match sh with
  | [] => []
  | d :: sh' =>
      if Nat.eqb d 1 then O :: unsqueeze_index sh' idx
      else match idx with
           | [] => O :: unsqueeze_index sh' []
           | i :: idx' => i :: unsqueeze_index sh' idx'
           end
  end.

Definition squeeze (a : ndarray) : ndarray :=
  {| shape := filter (fun d => negb (Nat.eqb d 1)) (shape a);
     get := fun idx => get a (unsqueeze_index (shape a) idx) |}.

(** [t.unsqueeze(0)]: a new leading axis of extent one. *)
Definition unsqueeze0 (a : ndarray) : ndarray :=
  {| shape := 1 :: shape a;
     get := fun idx => get a (tl idx) |}.

(** [a.transpose(1,2,0)], defined on arrays of three axes only. *)
Definition transpose_120 (a : ndarray) : result ndarray :=
  match shape a with
  | [d0; d1; d2] =>
      Ok {| shape := [d1; d2; d0];
            get := fun idx => match idx with
                              | [i; j; k] => get a [k; i; j]
                              | _ => 0%R
                              end |}
  | _ => Raise ValueError
  end.

(** [a.transpose(2,0,1)], defined on arrays of three axes only. *)
Definition transpose_201 (a : ndarray) : result ndarray :=
  match shape a with
  | [d0; d1; d2] =>
      Ok {| shape := [d2; d0; d1];
            get := fun idx => match idx with
                              | [i; j; k] => get a [j; k; i]
                              | _ => 0%R
                              end |}
  | _ => Raise ValueError
  end.

(** [np.moveaxis(a, 0, 2)]: axis 2 has to exist. *)
Definition moveaxis_0_2 (a : ndarray) : result ndarray :=
  match shape a with
  | d0 :: d1 :: d2 :: rest =>
      Ok {| shape := d1 :: d2 :: d0 :: rest;
            get := fun idx => match idx with
                              | i :: j :: k :: r => get a (k :: i :: j :: r)
                              | _ => 0%R
                              end |}
  | _ => Raise AxisError
  end.

(** [a.mean(axis=(0,1))] and [a.std(axis=(0,1))]. *)
Definition mean_axis01 (a : ndarray) : result ndarray :=
  match shape a with
  | h :: w :: rest =>
      Ok {| shape := rest;
            get := fun r => mean2 h w (fun i j => get a (i :: j :: r)) |}
  | _ => Raise AxisError
  end.

Definition std_axis01 (a : ndarray) : result ndarray :=
  match shape a with
  | h :: w :: rest =>
      Ok {| shape := rest;
            get := fun r => std2 h w (fun i j => get a (i :: j :: r)) |}
  | _ => Raise AxisError
  end.

(** [np.mean(a, axis=(1,2))]. *)
Definition mean_axis12 (a : ndarray) : result ndarray :=
  match shape a with
  | c :: h :: w :: rest =>
      Ok {| shape := c :: rest;
            get := fun idx => match idx with
                              | k :: r => mean2 h w (fun i j => get a (k :: i :: j :: r))
                              | [] => 0%R
                              end |}
  | _ => Raise AxisError
  end.

(** Sum of [f] over every index of an array of the given shape, and the
    number of its entries. *)
Fixpoint sum_over (sh : list nat) (f : list nat -> R) : R :=
  match sh with
  | [] => f []
  | d :: sh' => sum_upto d (fun i => sum_over sh' (fun idx => f (i :: idx)))
  end.

Definition numel (sh : list nat) : nat := fold_right Nat.mul 1 sh.

(** [t.mean()]: the mean of all entries, a tensor without axes. *)
Definition mean_all (a : ndarray) : ndarray :=
  {| shape := [];
     get := fun _ => (sum_over (shape a) (get a) / INR (numel (shape a)))%R |}.

Definition neg (a : ndarray) : ndarray :=
  {| shape := shape a; get := fun idx => (- get a idx)%R |}.

(** [t[0, k]] on a tensor with at least two axes. *)
Definition index_0_k (a : ndarray) (k : Z) : result ndarray :=
  match shape a with
  | n :: c :: rest =>
      if ((0 <? Z.of_nat n) && (- Z.of_nat c <=? k) && (k <? Z.of_nat c))%Z
      then let k' := Z.to_nat (k mod Z.of_nat c) in
           Ok {| shape := rest; get := fun idx => get a (O :: k' :: idx) |}
      else Raise IndexError
  | _ => Raise IndexError
  end.

(** Arithmetic of an array with a vector along its trailing axes, by numpy's
    broadcasting: the shape of [v] has to be a suffix of the shape of [a]
    (the only case the notebook meets, the result keeps the shape of [a]). *)
Fixpoint shape_eqb (a b : list nat) : bool :=
  match a, b with
  | [], [] => true
  | x :: a', y :: b' => Nat.eqb x y && shape_eqb a' b'
  | _, _ => false
  end.

Fixpoint is_suffix (sv sa : list nat) : bool :=
  if shape_eqb sv sa then true
  else match sa with
       | [] => false
       | _ :: sa' => is_suffix sv sa'
       end.

Definition broadcast (op : R -> R -> R) (a v : ndarray) : result ndarray :=
  if is_suffix (shape v) (shape a)
  then Ok {| shape := shape a;
             get := fun idx =>
               op (get a idx) (get v (skipn (length idx - ndim v) idx)) |}
  else Raise ValueError.

(** [np.array([x0, x1, x2])]. *)
Definition np_array3 (x0 x1 x2 : R) : ndarray :=
  {| shape := [3];
     get := fun idx => match idx with
                       | [O] => x0
                       | [1] => x1
                       | [2] => x2
                       | _ => 0%R
                       end |}.

Definition imagenet_mean : ndarray := np_array3 (485/1000) (456/1000) (406/1000).
Definition imagenet_std : ndarray := np_array3 (229/1000) (224/1000) (225/1000).

(** The last four statements of [create_feature_maximizer] before [return]:
<<
    img_new = img - img.mean(axis=(0,1))
    img_new /= img_new.std(axis=(0,1))
    img_new *= np.array([0.229, 0.224, 0.225])
    img_new += np.array([0.485, 0.456, 0.406])
>> *)
Definition renormalize (img : ndarray) : result ndarray :=
  (mu <- mean_axis01 img ;
   img_new <- broadcast Rminus img mu ;
   sd <- std_axis01 img_new ;
   img_new <- broadcast Rdiv img_new sd ;
   img_new <- broadcast Rmult img_new imagenet_std ;
   broadcast Rplus img_new imagenet_mean)%res.

(** A channel standardised and rescaled to mean [m] and deviation [s]. *)
Definition rescaled (h w : nat) (f : nat -> nat -> R) (s m : R) : nat -> nat -> R :=
  fun i j => ((f i j - mean2 h w f)
              / std2 h w (fun i' j' => f i' j' - mean2 h w f) * s + m)%R.

(* ================================================================= *)
(** ** The torch world *)

(** A tensor that takes part in autograd: its value, the leaf tensor it was
    computed from, and its graph, the function of the leaf's value that it
    is. *)
Record Tensor : Type := mk_Tensor {
  t_val : ndarray;
  t_leaf : nat;
  t_graph : ndarray -> result ndarray
}.

(** The library calls that are logged. *)
Inductive Event : Type :=
| EvResize (h w : Z)
| EvZeroGrad
| EvForward (model : nat)
| EvBackward
| EvStep.

(** Objects are known by a number (Python's [id]). [w_data] holds the value
    of each leaf tensor: the parameters of the models and the image
    variables; [w_grad] their [.grad]; [w_hooks] the forward hooks of each
    module, in registration order, a hook being a handle and the list its
    closure appends to; [w_lists] the Python lists. *)
Record World : Type := mk_World {
  w_data : nat -> ndarray;
  w_grad : nat -> option ndarray;
  w_hooks : nat -> list (nat * nat);
  w_lists : nat -> list Tensor;
  w_next : nat;
  w_log : list Event
}.

Definition upd {A} (f : nat -> A) (k : nat) (v : A) : nat -> A :=
  fun i => if Nat.eqb i k then v else f i.

Definition set_data (w : World) (d : nat -> ndarray) : World :=
  mk_World d (w_grad w) (w_hooks w) (w_lists w) (w_next w) (w_log w).
Definition set_grad (w : World) (g : nat -> option ndarray) : World :=
  mk_World (w_data w) g (w_hooks w) (w_lists w) (w_next w) (w_log w).
Definition set_hooks (w : World) (h : nat -> list (nat * nat)) : World :=
  mk_World (w_data w) (w_grad w) h (w_lists w) (w_next w) (w_log w).
Definition set_lists (w : World) (l : nat -> list Tensor) : World :=
  mk_World (w_data w) (w_grad w) (w_hooks w) l (w_next w) (w_log w).
Definition set_next (w : World) (n : nat) : World :=
  mk_World (w_data w) (w_grad w) (w_hooks w) (w_lists w) n (w_log w).
Definition add_log (w : World) (e : Event) : World :=
  mk_World (w_data w) (w_grad w) (w_hooks w) (w_lists w) (w_next w) (w_log w ++ [e]).

(** Computations in the world: a raised exception stops the computation and
    leaves the world as it was when it was raised. *)
Definition M (A : Type) : Type := World -> result A * World.

Definition ret {A} (a : A) : M A := fun w => (Ok a, w).

Definition bind {A B} (m : M A) (f : A -> M B) : M B :=
  fun w => match m w with
           | (Ok a, w1) => f a w1
           | (Raise e, w1) => (Raise e, w1)
           end.

Definition lift {A} (r : result A) : M A := fun w => (r, w).

Definition log (e : Event) : M unit := fun w => (Ok tt, add_log w e).

Declare Scope torch_scope.
Delimit Scope torch_scope with torch.
Notation "x <- m ;; k" := (bind m (fun x => k))
  (at level 61, m at next level, right associativity) : torch_scope.
Notation "m ;; k" := (bind m (fun _ => k))
  (at level 61, right associativity) : torch_scope.
Local Open Scope torch_scope.

(** A new leaf tensor ([.clone().detach().requires_grad_(True)]). *)
Definition new_leaf (a : ndarray) : M nat :=
  fun w => (Ok (w_next w),
            set_next (set_grad (set_data w (upd (w_data w) (w_next w) a))
                               (upd (w_grad w) (w_next w) None))
                     (S (w_next w))).

(** [t.detach().numpy()] *)
Definition numpy (t : nat) : M ndarray := fun w => (Ok (w_data w t), w).

(** A leaf seen as a tensor of the graph. *)
Definition leaf (t : nat) : M Tensor :=
  fun w => (Ok (mk_Tensor (w_data w t) t (fun a => Ok a)), w).

(** [[]], [l.append(x)], [l[i]] *)
Definition new_list : M nat :=
  fun w => (Ok (w_next w),
            set_next (set_lists w (upd (w_lists w) (w_next w) [])) (S (w_next w))).

Definition append (l : nat) (x : Tensor) : M unit :=
  fun w => (Ok tt, set_lists w (upd (w_lists w) l (w_lists w l ++ [x]))).

Definition list_getitem (l : nat) (i : Z) : M Tensor :=
  fun w => (py_getitem (w_lists w l) i, w).

(** *** Modules and forward hooks *)

(** [torch.nn.Module]: its identity, its parameters (leaf tensors) and its
    [forward], a function of the values of its parameters and of the input. *)
Record NNModule : Type := mk_NNModule {
  m_id : nat;
  m_params : list nat;
  m_forward : list ndarray -> ndarray -> result ndarray
}.

(** A classifier of torchvision's VGG family: [features] is a
    [torch.nn.Sequential]; [head] stands for what follows it (pooling,
    flattening and the fully connected layers). *)
Record Model : Type := mk_Model {
  model_id : nat;
  features : list NNModule;
  head : NNModule
}.

(** The closure [hook_fn] of both methods, <<outputs.append(output)>>. *)
Definition hook_fn (outputs : nat) (output : Tensor) : M unit :=
  append outputs output.

Fixpoint run_hooks (hs : list (nat * nat)) (output : Tensor) : M unit :=
  match hs with
  | [] => ret tt
  | (_, outputs) :: hs' => hook_fn outputs output ;; run_hooks hs' output
  end.

(** [module(input)]: [forward], then every forward hook of the module. *)
Definition call_module (m : NNModule) (input : Tensor) : M Tensor :=
  fun w =>
    let ps := map (w_data w) (m_params m) in
    match m_forward m ps (t_val input) with
    | Raise e => (Raise e, w)
    | Ok y =>
        let output :=
          mk_Tensor y (t_leaf input)
                    (fun a => rbind (t_graph input a) (m_forward m ps)) in
        match run_hooks (w_hooks w (m_id m)) output w with
        | (Ok _, w1) => (Ok output, w1)
        | (Raise e, w1) => (Raise e, w1)
        end
    end.

Fixpoint sequential (ms : list NNModule) (input : Tensor) : M Tensor :=
  match ms with
  | [] => ret input
  | m :: ms' => x <- call_module m input ;; sequential ms' x
  end.

(** [model(x)] *)
Definition call_model (m : Model) (x : Tensor) : M Tensor :=
  log (EvForward (model_id m)) ;;
  x <- sequential (features m) x ;;
  call_module (head m) x.

(** [module.register_forward_hook(hook_fn)] with [hook_fn] closed over the
    list [outputs]; the handle returned is the module and the hook's key. *)
Definition register_forward_hook (m : NNModule) (outputs : nat) : M (nat * nat) :=
  fun w => (Ok (m_id m, w_next w),
            set_next (set_hooks w (upd (w_hooks w) (m_id m)
                                       (w_hooks w (m_id m) ++ [(w_next w, outputs)])))
                     (S (w_next w))).

(** [hook.remove()] *)
Definition remove (hook : nat * nat) : M unit :=
  fun w => (Ok tt,
            set_hooks w (upd (w_hooks w) (fst hook)
                             (filter (fun h => negb (Nat.eqb (fst h) (snd hook)))
                                     (w_hooks w (fst hook))))).

(** *** Autograd and the optimizer *)

(** An operation applied to a tensor of the graph. *)
Definition tensor_map (f : ndarray -> result ndarray) (t : Tensor) : result Tensor :=
  (v <- f (t_val t) ;
   Ok (mk_Tensor v (t_leaf t) (fun a => rbind (t_graph t a) f)))%res.

(** [r.item()] of a computation that yields a tensor without axes. *)
Definition item (r : result ndarray) : R :=
  match r with
  | Ok a => get a []
  | Raise _ => 0%R
  end.

Definition accumulate (old : option ndarray) (g : ndarray) : ndarray :=
  match old with
  | None => g
  | Some g0 => {| shape := shape g; get := fun idx => (get g0 idx + get g idx)%R |}
  end.

(** The state [torch.optim.Adam] keeps for a parameter. *)
Record AdamState : Type := mk_AdamState {
  step_count : nat;
  exp_avg : list nat -> R;
  exp_avg_sq : list nat -> R
}.

(** An optimizer object. It is threaded through the loop that uses it. *)
Record Optimizer : Type := mk_Optimizer {
  params : list nat;
  lr : R;
  weight_decay : R;
  state : nat -> AdamState
}.

(** [torch.optim.Adam(params, lr=..., weight_decay=...)] *)
Definition Adam (ps : list nat) (lr wd : R) : Optimizer :=
  mk_Optimizer ps lr wd (fun _ => mk_AdamState 0 (fun _ => 0%R) (fun _ => 0%R)).

(** [for x in l: s = body x s] *)
Fixpoint for_each {A S} (l : list A) (body : A -> S -> M S) (s : S) : M S :=
  match l with
  | [] => ret s
  | x :: l' => s' <- body x s ;; for_each l' body s'
  end.

Definition range (n : nat) : list nat := seq 0 n.

(** [int(q)] truncates towards zero. *)
Definition py_int (q : Q) : Z := Z.quot (Qnum q) (Zpos (Qden q)).

Record FeatureVisualizer : Type := FeatureVisualizer_init {
  self_model : Model
}.

Section Methods.

(** skimage's [resize (image, (h, w))]. *)
Variable resize : ndarray -> Z -> Z -> result ndarray.
(** The derivative autograd computes: the gradient of a scalar function of
    a tensor, at a value of the tensor. *)
Variable autograd : (ndarray -> R) -> ndarray -> ndarray.
(** Adam's rule for one entry: from [lr], [weight_decay], the step number,
    the entry, its gradient and the two moving averages, to the new entry
    and the new averages. *)
Variable adam_rule : R -> R -> nat -> R -> R -> R -> R -> R * R * R.
(** The array [np.uint8(np.random.uniform(-125, 125, ...))] that the random
    generator yields in this run. *)
Variable rng : list nat -> Z.
(** PIL and torchvision: [Image.open], [transforms.Resize(imsize)] and
    [transforms.ToTensor()]. *)
Variable PILImage : Type.
Variable Image_open : String.string -> result PILImage.
Variable Resize : nat -> PILImage -> result PILImage.
Variable ToTensor : PILImage -> result ndarray.

(** [loss.backward()]: the gradient of the loss with respect to its leaf
    is added to the leaf's [.grad]. The [.grad] buffers of the parameters
    of the model are not represented. *)
Definition backward (loss : Tensor) : M unit :=
  fun w =>
    match shape (t_val loss) with
    | [] =>
        let l := t_leaf loss in
        let g := autograd (fun a => item (t_graph loss a)) (w_data w l) in
        (Ok tt,
         add_log (set_grad w (upd (w_grad w) l (Some (accumulate (w_grad w l) g))))
                 EvBackward)
    | _ => (Raise RuntimeError, w)
    end.

(** [optimizer.zero_grad()] *)
Definition zero_grad (o : Optimizer) : M unit :=
  fun w =>
    (Ok tt,
     add_log (set_grad w (fold_left (fun g p => upd g p None) (params o) (w_grad w)))
             EvZeroGrad).

(** Adam's update of a tensor [x] with gradient [g], entry by entry. *)
Definition adam_update (lr wd : R) (s : AdamState) (x g : ndarray)
  : ndarray * AdamState :=
  let t := S (step_count s) in
  let new := fun idx =>
    adam_rule lr wd t (get x idx) (get g idx) (exp_avg s idx) (exp_avg_sq s idx) in
  (mk_ndarray (shape x) (fun idx => fst (fst (new idx))),
   mk_AdamState t (fun idx => snd (fst (new idx))) (fun idx => snd (new idx))).

(** The update of the parameter [p], in place; a parameter without a
    gradient is skipped. *)
Definition step_param (o : Optimizer) (p : nat) (st : nat -> AdamState)
  : M (nat -> AdamState) :=
  fun w =>
    match w_grad w p with
    | None => (Ok st, w)
    | Some g =>
        let r := adam_update (lr o) (weight_decay o) (st p) (w_data w p) g in
        (Ok (upd st p (snd r)), set_data w (upd (w_data w) p (fst r)))
    end.

(** [optimizer.step()] *)
Definition step (o : Optimizer) : M Optimizer :=
  log EvStep ;;
  st <- for_each (params o) (step_param o) (state o) ;;
  ret (mk_Optimizer (params o) (lr o) (weight_decay o) st).

(** *** [create_feature_maximizer] *)

(** <<torch.from_numpy(np.uint8(np.random.uniform(-125, 125, (3,imsize, imsize)))/255)>> *)
Definition random_image (imsize : nat) : ndarray :=
  {| shape := [3; imsize; imsize];
     get := fun idx => (IZR (rng idx) / 255)%R |}.

(** <<sz = int(upscaling_factor**j * imsize)>> *)
Definition new_size (upscaling_factor : Q) (j imsize : nat) : Z :=
  py_int (Qpower upscaling_factor (Z.of_nat j) * inject_Z (Z.of_nat imsize))%Q.

(** From <<outputs = []>> to the definition of [loss]: the hook that is
    installed and the loss. *)
Definition forward_loss (model : Model) (layer_index kernel_index : Z)
           (img : nat) : M ((nat * nat) * nat * Tensor) :=
  outputs <- new_list ;;
  layer <- lift (py_getitem (features model) layer_index) ;;
  hook <- register_forward_hook layer outputs ;;
  x <- leaf img ;;
  output <- call_model model x ;;
  out0 <- list_getitem outputs 0 ;;
  act <- lift (tensor_map (fun a => index_0_k a kernel_index) out0) ;;
  mean <- lift (tensor_map (fun a => Ok (mean_all a)) act) ;;
  loss <- lift (tensor_map (fun a => Ok (neg a)) mean) ;;
  ret (hook, outputs, loss).

(** The body of the inner loop, <<for i in range(n_steps)>>. *)
Definition optimisation_step (model : Model) (layer_index kernel_index : Z)
           (img : nat) (i : nat) (optimizer : Optimizer) : M Optimizer :=
  zero_grad optimizer ;;
  r <- forward_loss model layer_index kernel_index img ;;
  let '(hook, _, loss) := r in
  backward loss ;;
  optimizer <- step optimizer ;;
  remove hook ;;
  ret optimizer.

(** The body of the outer loop, <<for j in range(upscaling_steps)>>. *)
Definition upscaling_step (model : Model) (layer_index kernel_index : Z)
           (n_steps imsize : nat) (upscaling_factor : Q)
           (j : nat) (img : nat) : M nat :=
  let sz := new_size upscaling_factor j imsize in
  a <- numpy img ;;
  a <- lift (transpose_120 (squeeze a)) ;;
  log (EvResize sz sz) ;;
  a <- lift (resize a sz sz) ;;
  a <- lift (transpose_201 a) ;;
  img <- new_leaf (unsqueeze0 a) ;;
  let optimizer := Adam [img] (1 / 10) (1 / 1000000) in
  for_each (range n_steps)
           (optimisation_step model layer_index kernel_index img) optimizer ;;
  ret img.

(** The method. [model] is the global variable of the notebook that the
    body names; [self] is the object the method is called on. *)
Definition create_feature_maximizer (model : Model) (self : FeatureVisualizer)
           (layer_index kernel_index : Z) (n_steps : nat) (gaussian_blur : R)
           (imsize upscaling_steps : nat) (upscaling_factor : Q) : M ndarray :=
  img <- new_leaf (unsqueeze0 (random_image imsize)) ;;
  img <- for_each (range upscaling_steps)
                  (upscaling_step model layer_index kernel_index
                                  n_steps imsize upscaling_factor) img ;;
  a <- numpy img ;;
  lift (img <- moveaxis_0_2 (squeeze a) ; renormalize img)%res.

(** *** [get_mean_layer_activations] *)

(** [transforms.Normalize(mean, std)] on the tensor of three axes that
    [ToTensor] yields (another rank is rejected): the first axis has to
    match the three entries of [mean] and [std]. *)
Definition Normalize (mean std : ndarray) (t : ndarray) : result ndarray :=
  match shape t with
  | [c; _; _] =>
      if Nat.eqb c 3
      then Ok {| shape := shape t;
                 get := fun idx =>
                   ((get t idx - get mean [hd O idx]) / get std [hd O idx])%R |}
      else Raise RuntimeError
  | _ => Raise ValueError
  end.

(** <<transforms.Compose([transforms.Resize(imsize), transforms.ToTensor(),
      transforms.Normalize(mean=[0.485, 0.456, 0.406], std=[0.229, 0.224, 0.225])])>> *)
Definition loader (imsize : nat) (image : PILImage) : result ndarray :=
  (image <- Resize imsize image ;
   t <- ToTensor image ;
   Normalize imagenet_mean imagenet_std t)%res.

Definition image_loader (imsize : nat) (image_name : String.string) : M Tensor :=
  image <- lift (Image_open image_name) ;;
  image <- lift (loader imsize image) ;;
  image <- new_leaf image ;;
  image <- leaf image ;;
  lift (tensor_map (fun a => Ok (unsqueeze0 a)) image).

Definition get_mean_layer_activations (self : FeatureVisualizer)
           (image_path : String.string) (layer_index : Z) (imsize : nat)
  : M ndarray :=
  outputs <- new_list ;;
  img <- image_loader imsize image_path ;;
  layer <- lift (py_getitem (features (self_model self)) layer_index) ;;
  hook <- register_forward_hook layer outputs ;;
  output <- call_model (self_model self) img ;;
  remove hook ;;
  out0 <- list_getitem outputs 0 ;;
  lift (mean_axis12 (squeeze (t_val out0))).

End Methods.

(* ================================================================= *)
(** ** What the methods are meant to compute *)

(** The modules [ms] applied in turn, the parameters read from [d]. *)
Fixpoint forward_through (d : nat -> ndarray) (ms : list NNModule) (x : ndarray)
  : result ndarray :=
  match ms with
  | [] => Ok x
  | m :: ms' =>
      (y <- m_forward m (map d (m_params m)) x ; forward_through d ms' y)%res
  end.

(** The place in the sequence that a valid Python index names. *)
Definition position {A} (l : list A) (i : Z) : nat :=
  Z.to_nat (i mod Z.of_nat (length l)).

(** The tensor that layer [layer_index] of the features produces when the
    model is run on [x]. *)
Definition layer_activation (d : nat -> ndarray) (model : Model) (layer_index : Z)
           (x : ndarray) : result ndarray :=
  forward_through d (firstn (S (position (features model) layer_index))
                            (features model)) x.

(** The mean of that tensor restricted to channel [kernel_index]. *)
Definition mean_activation (d : nat -> ndarray) (model : Model)
           (layer_index kernel_index : Z) (x : ndarray) : result ndarray :=
  (y <- layer_activation d model layer_index x ;
   a <- index_0_k y kernel_index ;
   Ok (mean_all a))%res.

(** Channel [c] of an image stored height by width by channel. *)
Definition channel (a : ndarray) (c : nat) : nat -> nat -> R :=
  fun i j => get a [i; j; c].


(** The modules of a model, and the worlds the methods are run in: every
    handle and list a hook names, and every parameter of the model, was
    allocated before. *)
Definition modules (m : Model) : list NNModule := features m ++ [head m].

Definition wf_hooks (w : World) : Prop :=
  forall mid h r, In (h, r) (w_hooks w mid) -> h < w_next w /\ r < w_next w.

Definition wf_model (w : World) (m : Model) : Prop :=
  forall md p, In md (modules m) -> In p (m_params md) -> p < w_next w.

(** The modules of a model are distinct objects. *)
Definition distinct_modules (m : Model) : Prop :=
  NoDup (map m_id (modules m)).

(** The four library calls of one optimisation step. *)
Definition step_events (model : Model) : list Event :=
  [EvZeroGrad; EvForward (model_id model); EvBackward; EvStep].


(** The loss of the method as a function of the image. *)
Definition loss_function (d : nat -> ndarray) (model : Model)
           (layer_index kernel_index : Z) : ndarray -> R :=
  fun a => item (rbind (mean_activation d model layer_index kernel_index a)
                       (fun m => Ok (neg m))).

(** Two worlds that differ in their lists at most. *)
Definition same_but_lists (w w' : World) : Prop :=
  w_data w' = w_data w /\ w_grad w' = w_grad w /\ w_hooks w' = w_hooks w
  /\ w_next w' = w_next w /\ w_log w' = w_log w.

Definition img_fresh (model : Model) (img : nat) : Prop :=
  forall m p, In m (modules model) -> In p (m_params m) -> p <> img.

Definition agrees (w : World) (d : nat -> ndarray) (model : Model) : Prop :=
  forall m p, In m (modules model) -> In p (m_params m) -> w_data w p = d p.

(** What skimage's [resize] promises: it returns no array of negative
    extent, and an image of three axes keeps its channels and gets the
    height and width asked for. *)
Definition resize_contract (resize : ndarray -> Z -> Z -> result ndarray) : Prop :=
  forall a h w b, resize a h w = Ok b ->
    (0 <= h)%Z /\ (0 <= w)%Z
    /\ forall s0 s1 c, shape a = [s0; s1; c] -> shape b = [Z.to_nat h; Z.to_nat w; c].

(** The side of the image after the stages [js], from side [s]. *)
Definition side_after (imsize : nat) (uf : Q) (js : list nat) (s : nat) : nat :=
  fold_left (fun _ j => Z.to_nat (new_size uf j imsize)) js s.

(** A run that can be evaluated returned normally. *)
Definition succeeds {A} (x : result A * World) : bool :=
  match fst x with
  | Ok _ => true
  | Raise _ => false
  end.

(* ================================================================= *)
(** ** The iteration the method performs, as a function *)

Section Iteration.

Variable resize : ndarray -> Z -> Z -> result ndarray.
Variable autograd : (ndarray -> R) -> ndarray -> ndarray.
Variable adam_rule : R -> R -> nat -> R -> R -> R -> R -> R * R * R.
Variable rng : list nat -> Z.

(** One step of Adam on the loss: the image and the state of the optimizer
    before, the image and the state after. *)
Definition ascent_step (lr wd : R) (d : nat -> ndarray) (model : Model)
           (layer_index kernel_index : Z) (s : ndarray * AdamState)
  : ndarray * AdamState :=
  adam_update adam_rule lr wd (snd s) (fst s)
              (autograd (loss_function d model layer_index kernel_index) (fst s)).

Definition adam_initial : AdamState :=
  mk_AdamState 0 (fun _ => 0%R) (fun _ => 0%R).

(** The image resized for stage [j]. *)
Definition upscale (imsize : nat) (upscaling_factor : Q) (j : nat) (x : ndarray)
  : result ndarray :=
  let sz := new_size upscaling_factor j imsize in
  (a <- transpose_120 (squeeze x) ;
   a <- resize a sz sz ;
   a <- transpose_201 a ;
   Ok (unsqueeze0 a))%res.

(** Stage [j]: the image is resized, then [n_steps] steps of Adam are
    taken from a fresh optimizer. *)
Definition stage (d : nat -> ndarray) (model : Model) (layer_index kernel_index : Z)
           (n_steps imsize : nat) (upscaling_factor : Q) (j : nat) (x : ndarray)
  : result ndarray :=
  (x0 <- upscale imsize upscaling_factor j x ;
   Ok (fst (Nat.iter n_steps
                     (ascent_step (1 / 10) (1 / 1000000) d model
                                  layer_index kernel_index)
                     (x0, adam_initial))))%res.

Fixpoint stages (d : nat -> ndarray) (model : Model) (layer_index kernel_index : Z)
         (n_steps imsize : nat) (upscaling_factor : Q) (js : list nat) (x : ndarray)
  : result ndarray :=
  match js with
  | [] => Ok x
  | j :: js' =>
      (x' <- stage d model layer_index kernel_index n_steps imsize
                   upscaling_factor j x ;
       stages d model layer_index kernel_index n_steps imsize
              upscaling_factor js' x')%res
  end.

(** The image the method returns: the random image taken through the
    stages, then standardised channel by channel. *)
Definition maximizer (d : nat -> ndarray) (model : Model)
           (layer_index kernel_index : Z) (n_steps imsize upscaling_steps : nat)
           (upscaling_factor : Q) : result ndarray :=
  (x <- stages d model layer_index kernel_index n_steps imsize upscaling_factor
               (range upscaling_steps) (unsqueeze0 (random_image rng imsize)) ;
   img <- moveaxis_0_2 (squeeze x) ;
   renormalize img)%res.

(** The library calls of a whole run. *)
Definition stage_events (model : Model) (n_steps imsize : nat)
           (upscaling_factor : Q) (j : nat) : list Event :=
  EvResize (new_size upscaling_factor j imsize) (new_size upscaling_factor j imsize)
  :: concat (repeat (step_events model) n_steps).

Definition run_events (model : Model) (n_steps imsize upscaling_steps : nat)
           (upscaling_factor : Q) : list Event :=
  concat (map (stage_events model n_steps imsize upscaling_factor)
              (range upscaling_steps)).

End Iteration.

(* ================================================================= *)
(** ** The outcome of the methods, a value or an exception, as functions *)

(** What can stop one optimisation step: the indexing of the features, the
    forward pass of the whole model, the indexing of the hooked output. *)
Definition step_check (d : nat -> ndarray) (model : Model)
           (layer_index kernel_index : Z) (x : ndarray) : result unit :=
  (_ <- py_getitem (features model) layer_index ;
   _ <- forward_through d (modules model) x ;
   _ <- mean_activation d model layer_index kernel_index x ;
   Ok tt)%res.

Section Outcome.

Variable resize : ndarray -> Z -> Z -> result ndarray.
Variable autograd : (ndarray -> R) -> ndarray -> ndarray.
Variable adam_rule : R -> R -> nat -> R -> R -> R -> R -> R * R * R.
Variable rng : list nat -> Z.
Variable PILImage : Type.
Variable Image_open : String.string -> result PILImage.
Variable Resize : nat -> PILImage -> result PILImage.
Variable ToTensor : PILImage -> result ndarray.

(** [n] steps of Adam on the loss, each of them checked. *)
Fixpoint checked_steps (lr wd : R) (d : nat -> ndarray) (model : Model)
         (layer_index kernel_index : Z) (n : nat) (s : ndarray * AdamState)
  : result (ndarray * AdamState) :=
  match n with
  | O => Ok s
  | S n' =>
      (_ <- step_check d model layer_index kernel_index (fst s) ;
       checked_steps lr wd d model layer_index kernel_index n'
                     (ascent_step autograd adam_rule lr wd d model
                                  layer_index kernel_index s))%res
  end.

Definition checked_stage (d : nat -> ndarray) (model : Model)
           (layer_index kernel_index : Z) (n_steps imsize : nat)
           (upscaling_factor : Q) (j : nat) (x : ndarray) : result ndarray :=
  (x0 <- upscale resize imsize upscaling_factor j x ;
   s <- checked_steps (1 / 10) (1 / 1000000) d model layer_index kernel_index
                      n_steps (x0, adam_initial) ;
   Ok (fst s))%res.

Fixpoint checked_stages (d : nat -> ndarray) (model : Model)
         (layer_index kernel_index : Z) (n_steps imsize : nat)
         (upscaling_factor : Q) (js : list nat) (x : ndarray) : result ndarray :=
  match js with
  | [] => Ok x
  | j :: js' =>
      (x' <- checked_stage d model layer_index kernel_index n_steps imsize
                           upscaling_factor j x ;
       checked_stages d model layer_index kernel_index n_steps imsize
                      upscaling_factor js' x')%res
  end.

(** The outcome of [create_feature_maximizer]. *)
Definition maximizer_outcome (d : nat -> ndarray) (model : Model)
           (layer_index kernel_index : Z) (n_steps imsize upscaling_steps : nat)
           (upscaling_factor : Q) : result ndarray :=
  (x <- checked_stages d model layer_index kernel_index n_steps imsize
                       upscaling_factor (range upscaling_steps)
                       (unsqueeze0 (random_image rng imsize)) ;
   img <- moveaxis_0_2 (squeeze x) ;
   renormalize img)%res.

(** The outcome of [get_mean_layer_activations]. *)
Definition mean_layer_activations_outcome (d : nat -> ndarray) (model : Model)
           (image_path : String.string) (layer_index : Z) (imsize : nat)
  : result ndarray :=
  (image <- Image_open image_path ;
   t <- loader PILImage Resize ToTensor imsize image ;
   _ <- py_getitem (features model) layer_index ;
   _ <- forward_through d (modules model) (unsqueeze0 t) ;
   act <- layer_activation d model layer_index (unsqueeze0 t) ;
   mean_axis12 (squeeze act))%res.

End Outcome.

(** The forward passes and the resizes in a log. *)
Definition is_forward (e : Event) : bool :=
  match e with
  | EvForward _ => true
  | _ => false
  end.

Definition is_resize (e : Event) : bool :=
  match e with
  | EvResize _ _ => true
  | _ => false
  end.

(** The hooks of a module once a hook with handle [h] on the list [l] is
    added. *)
Definition with_hook (hooks : nat -> list (nat * nat)) (mid h l : nat)
  : nat -> list (nat * nat) :=
  upd hooks mid (hooks mid ++ [(h, l)]).

(** One hook more than before, on the layer [layer_index] of the model,
    with a handle and a list allocated since. *)
Definition hook_left (w w' : World) (model : Model) (layer_index : Z) : Prop :=
  exists layer h l,
    py_getitem (features model) layer_index = Ok layer
    /\ w_next w <= l /\ l < h
    /\ forall mid, w_hooks w' mid = with_hook (w_hooks w) (m_id layer) h l mid.

(* ================================================================= *)
(** ** A small instance *)

(** Instances of the library parameters and a two-layer model on which the
    methods can be run: resizing by nearest neighbour, a gradient by
    differences, plain gradient descent for the update rule, and a noise
    array with distinct entries. *)
Module Files.
Import String.
Definition cat_jpg : string := "cat.jpg".
Definition dog_jpg : string := "dog.jpg".
End Files.

Module Small.

Definition resize (a : ndarray) (h w : Z) : result ndarray :=
  if ((h <? 0) || (w <? 0))%Z then Raise ValueError
  else match shape a with
       | [s0; s1; c] =>
           Ok {| shape := [Z.to_nat h; Z.to_nat w; c];
                 get := fun idx =>
                   match idx with
                   | [i; j; k] => get a [i * s0 / Z.to_nat h; j * s1 / Z.to_nat w; k]
                   | _ => 0%R
                   end |}
       | _ => Raise ValueError
       end.

Definition bump (x : ndarray) (at_idx : list nat) : ndarray :=
  {| shape := shape x;
     get := fun idx => if shape_eqb idx at_idx then (get x idx + 1)%R
                       else get x idx |}.

Definition autograd (f : ndarray -> R) (x : ndarray) : ndarray :=
  {| shape := shape x;
     get := fun idx => (f (bump x idx) - f x)%R |}.

Definition adam_rule (lr wd : R) (t : nat) (p g m v : R) : R * R * R :=
  ((p - lr * (g + wd * p))%R, m, v).

Definition rng (idx : list nat) : Z :=
  match idx with
  | [c; i; j] => Z.of_nat (c + i + j)
  | _ => 0%Z
  end.

(** A PIL image is its array of bytes, height by width by channel; only
    the file [cat.jpg] exists. *)
Definition PILImage : Type := ndarray.

Definition cat : PILImage :=
  {| shape := [2; 2; 3];
     get := fun idx => match idx with
                       | [i; j; c] => INR (i + j + c)
                       | _ => 0%R
                       end |}.

Definition Image_open (name : String.string) : result PILImage :=
  if String.eqb name Files.cat_jpg then Ok cat else Raise OSError.

Definition Resize (imsize : nat) (image : PILImage) : result PILImage :=
  if Nat.eqb imsize 0 then Raise ValueError else Ok image.

Definition ToTensor (image : PILImage) : result ndarray :=
  (t <- transpose_201 image ;
   Ok {| shape := shape t; get := fun idx => (get t idx / 255)%R |})%res.

(** A layer that multiplies by its weight, a tensor without axes, and a
    layer that returns its input. *)
Definition scale (id weight : nat) : NNModule :=
  mk_NNModule id [weight]
    (fun ps x => match ps with
                 | [k] => Ok {| shape := shape x;
                                get := fun idx => (get k [] * get x idx)%R |}
                 | _ => Raise RuntimeError
                 end).

Definition identity (id : nat) : NNModule :=
  mk_NNModule id [] (fun _ x => Ok x).

Definition model : Model := mk_Model 7 [scale 10 0; identity 11] (identity 12).

(** Another model, with other modules. *)
Definition other : Model := mk_Model 8 [identity 20] (identity 21).

(** A world with the one parameter of [model], equal to two. *)
Definition world : World :=
  mk_World (fun _ => {| shape := []; get := fun _ => 2%R |})
           (fun _ => None) (fun _ => []) (fun _ => []) 1 [].


(** A layer that raises, and a model whose second layer is one. *)
Definition failing (id : nat) : NNModule :=
  mk_NNModule id [] (fun _ _ => Raise (LibraryError 0)).

Definition broken : Model := mk_Model 9 [identity 30; failing 31] (identity 32).

(** A model whose first and third layer are the same module. *)
Definition shared : Model :=
  mk_Model 13 [scale 10 0; identity 11; scale 10 0] (identity 12).

(** An image of one row and an image of one channel, and [Image.open] when
    every file holds the same image. *)
Definition line : PILImage :=
  {| shape := [1; 2; 3];
     get := fun idx => match idx with
                       | [i; j; c] => INR (i + j + c)
                       | _ => 0%R
                       end |}.

Definition gray : PILImage :=
  {| shape := [2; 2; 1];
     get := fun idx => match idx with
                       | [i; j; c] => INR (i + j + c)
                       | _ => 0%R
                       end |}.

Definition open_as (image : PILImage) (name : String.string) : result PILImage :=
  Ok image.

(** The world once the random image of side two is a leaf, the tensor 1. *)
Definition start : World :=
  snd (new_leaf (unsqueeze0 (random_image rng 2)) world).

End Small.

(* ================================================================= *)
(** ** Sums, means and standard deviations *)

Section Statistics.
Local Open Scope R_scope.

Lemma sum_upto_ext n f g :
  (forall i, (i < n)%nat -> f i = g i) -> sum_upto n f = sum_upto n g.
Proof.
  induction n as [|n IH]; intros H; simpl; [reflexivity|].
  rewrite IH by (intros; apply H; lia). now rewrite H by lia.
Qed.

Lemma sum_upto_affine n a b f :
  sum_upto n (fun i => a * f i + b) = a * sum_upto n f + INR n * b.
Proof.
  induction n as [|n IH].
  - simpl. ring.
  - cbn [sum_upto]. rewrite IH, S_INR. ring.
Qed.

Lemma sum_upto_const n b : sum_upto n (fun _ => b) = INR n * b.
Proof.
  induction n as [|n IH]; [simpl; ring|].
  cbn [sum_upto]. rewrite IH, S_INR. ring.
Qed.


Lemma sum2_affine h w a b f :
  sum2 h w (fun i j => a * f i j + b) = a * sum2 h w f + INR (h * w) * b.
Proof.
  unfold sum2.
  rewrite (sum_upto_ext h _ (fun i => a * sum_upto w (fun j => f i j) + INR w * b))
    by (intros; apply sum_upto_affine).
  rewrite sum_upto_affine, mult_INR. ring.
Qed.

Lemma sum2_ext h w f g :
  (forall i j, (i < h)%nat -> (j < w)%nat -> f i j = g i j) ->
  sum2 h w f = sum2 h w g.
Proof.
  intros H. unfold sum2. apply sum_upto_ext. intros i Hi.
  apply sum_upto_ext. intros j Hj. now apply H.
Qed.

Lemma mean2_ext h w f g :
  (forall i j, (i < h)%nat -> (j < w)%nat -> f i j = g i j) ->
  mean2 h w f = mean2 h w g.
Proof. intros H. unfold mean2. now rewrite (sum2_ext h w f g H). Qed.

Lemma mean2_affine h w a b f :
  (h * w <> 0)%nat ->
  mean2 h w (fun i j => a * f i j + b) = a * mean2 h w f + b.
Proof.
  intros Hn. unfold mean2. rewrite sum2_affine.
  assert (INR (h * w) <> 0) by (apply not_0_INR; exact Hn).
  field. assumption.
Qed.

Lemma sum2_empty h w f : (h * w = 0)%nat -> sum2 h w f = 0.
Proof.
  intros H. unfold sum2. destruct h as [|h]; [reflexivity|].
  destruct w as [|w]; [|simpl in H; lia].
  change (sum_upto (S h) (fun _ => 0) = 0).
  rewrite sum_upto_const. ring.
Qed.

Lemma mean2_empty h w f : (h * w = 0)%nat -> mean2 h w f = 0.
Proof.
  intros H. unfold mean2. rewrite sum2_empty by assumption.
  unfold Rdiv. ring.
Qed.

Lemma std2_empty h w f : (h * w = 0)%nat -> std2 h w f = 0.
Proof.
  intros H. unfold std2. rewrite mean2_empty by assumption. apply sqrt_0.
Qed.

Lemma std2_nonneg h w f : 0 <= std2 h w f.
Proof. unfold std2. apply sqrt_pos. Qed.

(** The standard deviation of [a * f + b] is [|a|] times that of [f]. *)
Lemma std2_affine h w a b f :
  (h * w <> 0)%nat ->
  std2 h w (fun i j => a * f i j + b) = Rabs a * std2 h w f.
Proof.
  intros Hn. unfold std2.
  rewrite (mean2_affine h w a b f Hn).
  rewrite (mean2_ext h w
             (fun i j => Rsqr (a * f i j + b - (a * mean2 h w f + b)))
             (fun i j => Rsqr a * Rsqr (f i j - mean2 h w f) + 0)).
  2:{ intros. unfold Rsqr. ring. }
  rewrite (mean2_affine h w (Rsqr a) 0 _ Hn), Rplus_0_r.
  rewrite sqrt_mult_alt by apply Rle_0_sqr.
  now rewrite sqrt_Rsqr_abs.
Qed.

Lemma std2_ext h w f g :
  (forall i j, (i < h)%nat -> (j < w)%nat -> f i j = g i j) ->
  std2 h w f = std2 h w g.
Proof.
  intros H. unfold std2. f_equal.
  rewrite (mean2_ext h w f g H).
  apply mean2_ext. intros i j Hi Hj. now rewrite H.
Qed.

(** Centring does not change the standard deviation. *)
Lemma std2_centred h w f :
  std2 h w (fun i j => f i j - mean2 h w f) = std2 h w f.
Proof.
  destruct (Nat.eq_dec (h * w) 0) as [E|Hn].
  - now rewrite !std2_empty.
  - rewrite (std2_ext h w _ (fun i j => 1 * f i j + - mean2 h w f))
      by (intros; ring).
    rewrite (std2_affine h w 1 (- mean2 h w f) f Hn), Rabs_R1. ring.
Qed.

Lemma rescaled_mean h w f s m :
  std2 h w f <> 0 -> mean2 h w (rescaled h w f s m) = m.
Proof.
  intros Hsd.
  assert (Hn : (h * w <> 0)%nat)
    by (intros E; apply Hsd; now apply std2_empty).
  unfold rescaled. rewrite std2_centred.
  rewrite (mean2_ext h w _
             (fun i j => (s / std2 h w f) * f i j
                         + (m - s * mean2 h w f / std2 h w f)))
    by (intros; field; assumption).
  rewrite (mean2_affine h w _ _ f Hn). field. assumption.
Qed.

Lemma rescaled_std h w f s m :
  std2 h w f <> 0 -> 0 <= s -> std2 h w (rescaled h w f s m) = s.
Proof.
  intros Hsd Hs.
  assert (Hn : (h * w <> 0)%nat)
    by (intros E; apply Hsd; now apply std2_empty).
  assert (Hpos : 0 < std2 h w f)
    by (pose proof (std2_nonneg h w f); lra).
  unfold rescaled. rewrite std2_centred.
  rewrite (std2_ext h w _
             (fun i j => (s / std2 h w f) * f i j
                         + (m - s * mean2 h w f / std2 h w f)))
    by (intros; field; assumption).
  rewrite (std2_affine h w _ _ f Hn).
  rewrite Rabs_right.
  - field. assumption.
  - apply Rle_ge. apply Rmult_le_pos; [assumption|].
    left. now apply Rinv_0_lt_compat.
Qed.

End Statistics.

(* ================================================================= *)
(** ** Running computations *)

Lemma bind_Ok {A B} (m : M A) (f : A -> M B) w b w' :
  bind m f w = (Ok b, w') ->
  exists a w1, m w = (Ok a, w1) /\ f a w1 = (Ok b, w').
Proof.
  unfold bind. destruct (m w) as [[a|e] w1]; intros H.
  - now exists a, w1.
  - discriminate.
Qed.


Lemma lift_Ok {A} (r : result A) w a w' :
  lift r w = (Ok a, w') -> r = Ok a /\ w' = w.
Proof. unfold lift. intros H. now inversion H. Qed.

Lemma ret_Ok {A} (x : A) w a w' :
  ret x w = (Ok a, w') -> a = x /\ w' = w.
Proof. unfold ret. intros H. now inversion H. Qed.

Lemma rbind_Ok {A B} (r : result A) (f : A -> result B) b :
  rbind r f = Ok b -> exists a, r = Ok a /\ f a = Ok b.
Proof. destruct r as [a|e]; simpl; intros H; [now exists a | discriminate]. Qed.

Lemma upd_same {A} (f : nat -> A) k v : upd f k v k = v.
Proof. unfold upd. now rewrite Nat.eqb_refl. Qed.

Lemma upd_other {A} (f : nat -> A) k v i : i <> k -> upd f k v i = f i.
Proof.
  intros H. unfold upd. destruct (Nat.eqb_spec i k); [contradiction | reflexivity].
Qed.

Lemma same_but_lists_refl w : same_but_lists w w.
Proof. now repeat split. Qed.

Lemma same_but_lists_trans w1 w2 w3 :
  same_but_lists w1 w2 -> same_but_lists w2 w3 -> same_but_lists w1 w3.
Proof.
  intros (a1 & b1 & c1 & d1 & e1) (a2 & b2 & c2 & d2 & e2).
  repeat split; congruence.
Qed.

(* ================================================================= *)
(** ** Forward passes and hooks *)

Section Forward.

(** Every hook appends the output to its list: a list gets the output as
    many times as hooks of the module name it. *)
Lemma run_hooks_spec hs output w :
  exists w', run_hooks hs output w = (Ok tt, w')
    /\ same_but_lists w w'
    /\ forall r, w_lists w' r
         = w_lists w r ++ repeat output (count_occ Nat.eq_dec (map snd hs) r).
Proof.
  revert w. induction hs as [|[h l] hs IH]; intros w.
  - exists w. simpl. repeat split. intros r. now rewrite app_nil_r.
  - destruct (IH (set_lists w (upd (w_lists w) l (w_lists w l ++ [output]))))
      as (w' & Hrun & Hsame & Hl).
    exists w'. split; [|split].
    + simpl. unfold bind, hook_fn, append. exact Hrun.
    + destruct Hsame as (a & b & c & d & e). repeat split; assumption.
    + intros r. rewrite Hl. simpl.
      destruct (Nat.eq_dec l r) as [->|Hne].
      * rewrite upd_same. simpl. now rewrite <- app_assoc.
      * rewrite upd_other by congruence. reflexivity.
Qed.

Lemma call_module_spec m x w y w' :
  call_module m x w = (Ok y, w') ->
  same_but_lists w w'
  /\ m_forward m (map (w_data w) (m_params m)) (t_val x) = Ok (t_val y)
  /\ t_leaf y = t_leaf x
  /\ (forall a, t_graph y a
                = rbind (t_graph x a) (m_forward m (map (w_data w) (m_params m))))
  /\ forall r, w_lists w' r
       = w_lists w r
         ++ repeat y (count_occ Nat.eq_dec (map snd (w_hooks w (m_id m))) r).
Proof.
  unfold call_module.
  destruct (m_forward m (map (w_data w) (m_params m)) (t_val x)) as [v|e] eqn:Ef;
    [|discriminate].
  match goal with |- context [run_hooks ?hs ?o w] =>
    destruct (run_hooks_spec hs o w) as (w1 & Hrun & Hsame & Hl); rewrite Hrun
  end.
  intros H. inversion H; subst. clear H.
  repeat split; try apply Hsame; auto.
Qed.

Lemma sequential_spec ms : forall x w y w',
  sequential ms x w = (Ok y, w') ->
  same_but_lists w w'
  /\ forward_through (w_data w) ms (t_val x) = Ok (t_val y)
  /\ t_leaf y = t_leaf x
  /\ (forall a, t_graph y a = rbind (t_graph x a) (forward_through (w_data w) ms))
  /\ forall r, (forall m, In m ms -> ~ In r (map snd (w_hooks w (m_id m)))) ->
               w_lists w' r = w_lists w r.
Proof.
  induction ms as [|m ms IH]; intros x w y w' H.
  - apply ret_Ok in H. destruct H; subst.
    repeat split; auto. intros a. now destruct (t_graph x a).
  - simpl in H. apply bind_Ok in H. destruct H as (a & w0 & E & H).
    apply call_module_spec in E. destruct E as (S1 & F1 & L1 & G1 & Ls1).
    apply IH in H. destruct H as (S2 & F2 & L2 & G2 & Ls2).
    assert (Hd : w_data w0 = w_data w) by apply S1.
    assert (Hh : w_hooks w0 = w_hooks w) by apply S1.
    rewrite Hd in *. rewrite Hh in *.
    split; [eapply same_but_lists_trans; eassumption|].
    split; [simpl; rewrite F1; exact F2|].
    split; [congruence|].
    split.
    + intros b. rewrite G2, G1. simpl. destruct (t_graph x b); reflexivity.
    + intros r Hr. rewrite Ls2 by (intros; apply Hr; now right).
      rewrite Ls1.
      assert (Hc : count_occ Nat.eq_dec (map snd (w_hooks w (m_id m))) r = 0)
        by (apply count_occ_not_In; apply Hr; now left).
      rewrite Hc. simpl. apply app_nil_r.
Qed.

End Forward.

Section Indexing.

Lemma py_getitem_Ok {A} (l : list A) i a :
  py_getitem l i = Ok a ->
  valid_index l i
  /\ exists pre post, l = pre ++ a :: post /\ length pre = position l i.
Proof.
  unfold py_getitem, valid_index, position.
  destruct ((- Z.of_nat (length l) <=? i)%Z && (i <? Z.of_nat (length l))%Z) eqn:Eb;
    [|discriminate].
  apply andb_true_iff in Eb. destruct Eb as [E1 E2].
  apply Z.leb_le in E1. apply Z.ltb_lt in E2.
  destruct (nth_error l (Z.to_nat (i mod Z.of_nat (length l)))) as [b|] eqn:En;
    [|discriminate].
  intros H. inversion H; subst. split; [lia|].
  destruct (nth_error_split l _ En) as (pre & post & -> & Hlen).
  now exists pre, post.
Qed.

Lemma py_getitem_invalid {A} (l : list A) i :
  ~ valid_index l i -> py_getitem l i = Raise IndexError.
Proof.
  unfold py_getitem, valid_index. intros H.
  destruct ((- Z.of_nat (length l) <=? i)%Z && (i <? Z.of_nat (length l))%Z) eqn:Eb;
    [|reflexivity].
  apply andb_true_iff in Eb. destruct Eb as [E1 E2].
  apply Z.leb_le in E1. apply Z.ltb_lt in E2. lia.
Qed.


Lemma firstn_position {A} (pre post : list A) a :
  firstn (S (length pre)) (pre ++ a :: post) = pre ++ [a].
Proof.
  induction pre as [|b pre IH]; [reflexivity|].
  change (b :: firstn (S (length pre)) (pre ++ a :: post) = b :: pre ++ [a]).
  now rewrite IH.
Qed.

End Indexing.

Section Hooked.

Lemma sequential_app ms1 : forall ms2 x w,
  sequential (ms1 ++ ms2) x w = bind (sequential ms1 x) (sequential ms2) w.
Proof.
  induction ms1 as [|m ms1 IH]; intros ms2 x w; [reflexivity|].
  simpl. unfold bind.
  destruct (call_module m x w) as [[y|e] w1]; [|reflexivity].
  rewrite IH. reflexivity.
Qed.

Lemma forward_through_app d ms1 : forall ms2 x,
  forward_through d (ms1 ++ ms2) x
  = rbind (forward_through d ms1 x) (forward_through d ms2).
Proof.
  induction ms1 as [|m ms1 IH]; intros ms2 x; [reflexivity|].
  simpl. destruct (m_forward m (map d (m_params m)) x); [apply IH | reflexivity].
Qed.

(** A forward pass of a model one of whose layers carries exactly one hook
    on the list [r], no other module carrying any: the hook fires once,
    with the output of that layer. *)
Lemma call_model_hooked model pre layer post r x w y w' :
  features model = pre ++ layer :: post ->
  distinct_modules model ->
  (forall m, In m (modules model) -> m_id m <> m_id layer ->
             ~ In r (map snd (w_hooks w (m_id m)))) ->
  count_occ Nat.eq_dec (map snd (w_hooks w (m_id layer))) r = 1 ->
  call_model model x w = (Ok y, w') ->
  exists out,
    w_lists w' r = w_lists w r ++ [out]
    /\ forward_through (w_data w) (pre ++ [layer]) (t_val x) = Ok (t_val out)
    /\ (forall a, t_graph out a
                  = rbind (t_graph x a) (forward_through (w_data w) (pre ++ [layer])))
    /\ t_leaf out = t_leaf x
    /\ w_data w' = w_data w /\ w_grad w' = w_grad w /\ w_hooks w' = w_hooks w
    /\ w_next w' = w_next w
    /\ w_log w' = w_log w ++ [EvForward (model_id model)].
Proof.
  intros Hf Hd Hother Hone Hrun.
  assert (Hids : forall m, In m (pre ++ post ++ [head model]) -> m_id m <> m_id layer).
  { unfold distinct_modules, modules in Hd. rewrite Hf in Hd.
    rewrite <- app_assoc in Hd. simpl in Hd. rewrite map_app in Hd. simpl in Hd.
    apply NoDup_remove_2 in Hd. intros m Hin Heq. apply Hd.
    rewrite <- Heq, <- map_app. apply in_map. exact Hin. }
  assert (Hin : forall m, In m (pre ++ post ++ [head model]) -> In m (modules model)).
  { intros m H. unfold modules. rewrite Hf, <- app_assoc. simpl.
    apply in_app_or in H. apply in_or_app. destruct H; [now left|right; now right]. }
  unfold call_model in Hrun. rewrite Hf in Hrun.
  replace (pre ++ layer :: post) with (pre ++ [layer] ++ post) in Hrun by reflexivity.
  apply bind_Ok in Hrun. destruct Hrun as (u & w0 & Elog & Hrun).
  apply bind_Ok in Hrun. destruct Hrun as (y3 & w3 & Eseq & Hhead).
  rewrite sequential_app in Eseq.
  apply bind_Ok in Eseq. destruct Eseq as (y1 & w1 & Epre & Eseq).
  simpl in Eseq.
  apply bind_Ok in Eseq. destruct Eseq as (out & w2 & Elayer & Epost).
  unfold log in Elog. inversion Elog; subst; clear Elog.
  apply sequential_spec in Epre. destruct Epre as (S1 & F1 & L1 & G1 & Ls1).
  apply call_module_spec in Elayer. destruct Elayer as (S2 & F2 & L2 & G2 & Ls2).
  apply sequential_spec in Epost. destruct Epost as (S3 & F3 & L3 & G3 & Ls3).
  apply call_module_spec in Hhead. destruct Hhead as (S4 & F4 & L4 & G4 & Ls4).
  destruct S1 as (d1 & g1 & h1 & n1 & l1).
  destruct S2 as (d2 & g2 & h2 & n2 & l2).
  destruct S3 as (d3 & g3 & h3 & n3 & l3).
  destruct S4 as (d4 & g4 & h4 & n4 & l4).
  simpl in d1, g1, h1, n1, l1.
  rewrite d1 in *. rewrite h1 in *.
  rewrite d2, h2 in *. rewrite d3, h3 in *.
  simpl in F1, G1, Ls1.
  exists out.
  split.
  { rewrite Ls4, Ls3, Ls2, Ls1; simpl.
    - rewrite Hone.
      assert (Hc : count_occ Nat.eq_dec
                     (map snd (w_hooks w (m_id (head model)))) r = 0).
      { apply count_occ_not_In.
        apply Hother; [apply Hin | apply Hids];
          apply in_or_app; right; apply in_or_app; right; now left. }
      rewrite Hc. simpl. now rewrite app_nil_r.
    - intros m Hm. apply Hother; [apply Hin | apply Hids];
        apply in_or_app; now left.
    - intros m Hm. apply Hother; [apply Hin | apply Hids];
        apply in_or_app; right; apply in_or_app; now left. }
  split.
  { rewrite forward_through_app, F1. simpl. now rewrite F2. }
  split.
  { intros b. rewrite G2, G1.
    destruct (t_graph x b) as [v|e]; simpl; [|reflexivity].
    rewrite forward_through_app.
    destruct (forward_through (w_data w) pre v) as [v1|e]; simpl; [|reflexivity].
    now destruct (m_forward layer (map (w_data w) (m_params layer)) v1). }
  repeat split; congruence.
Qed.

End Hooked.

Section ForwardLoss.

Lemma count_occ_snoc (l : list nat) x y :
  count_occ Nat.eq_dec (l ++ [x]) y
  = count_occ Nat.eq_dec l y + (if Nat.eq_dec x y then 1 else 0).
Proof.
  rewrite count_occ_app. simpl. now destruct (Nat.eq_dec x y).
Qed.

Lemma fresh_not_hooked w mid :
  wf_hooks w -> ~ In (w_next w) (map snd (w_hooks w mid)).
Proof.
  intros Hwf Hin. apply in_map_iff in Hin. destruct Hin as ([h r] & Hr & Hin).
  simpl in Hr. subst r. apply Hwf in Hin. lia.
Qed.

(** The loss of one step: the hook fires once, on the output of the layer,
    and the loss is the negated mean of its channel, as a value and as a
    function of the image. *)
Lemma forward_loss_spec model li ki img w hook outputs loss w' :
  wf_hooks w -> distinct_modules model ->
  forward_loss model li ki img w = (Ok (hook, outputs, loss), w') ->
  exists layer out,
    py_getitem (features model) li = Ok layer
    /\ outputs = w_next w /\ hook = (m_id layer, S (w_next w))
    /\ w_lists w' outputs = [out]
    /\ layer_activation (w_data w) model li (w_data w img) = Ok (t_val out)
    /\ rbind (mean_activation (w_data w) model li ki (w_data w img))
             (fun a => Ok (neg a)) = Ok (t_val loss)
    /\ (forall x, t_graph loss x
                  = rbind (mean_activation (w_data w) model li ki x)
                          (fun a => Ok (neg a)))
    /\ t_leaf loss = img /\ shape (t_val loss) = []
    /\ w_data w' = w_data w /\ w_grad w' = w_grad w
    /\ w_hooks w' = upd (w_hooks w) (m_id layer)
                        (w_hooks w (m_id layer) ++ [(S (w_next w), w_next w)])
    /\ w_next w' = S (S (w_next w))
    /\ w_log w' = w_log w ++ [EvForward (model_id model)].
Proof.
  intros Hwf Hd Hrun. unfold forward_loss in Hrun.
  apply bind_Ok in Hrun. destruct Hrun as (outs & w1 & Enew & Hrun).
  unfold new_list in Enew. inversion Enew; subst outs w1; clear Enew.
  apply bind_Ok in Hrun. destruct Hrun as (layer & w1 & Eget & Hrun).
  apply lift_Ok in Eget. destruct Eget as [Eget ->].
  apply bind_Ok in Hrun. destruct Hrun as (hk & w2 & Ereg & Hrun).
  unfold register_forward_hook in Ereg. inversion Ereg; subst hk w2; clear Ereg.
  apply bind_Ok in Hrun. destruct Hrun as (x & w2 & Eleaf & Hrun).
  unfold leaf in Eleaf. inversion Eleaf; subst x w2; clear Eleaf.
  apply bind_Ok in Hrun. destruct Hrun as (y & w3 & Ecall & Hrun).
  apply bind_Ok in Hrun. destruct Hrun as (out0 & w4 & Eout & Hrun).
  apply bind_Ok in Hrun. destruct Hrun as (act & w5 & Eact & Hrun).
  apply lift_Ok in Eact. destruct Eact as [Eact ->].
  apply bind_Ok in Hrun. destruct Hrun as (mn & w5 & Emean & Hrun).
  apply lift_Ok in Emean. destruct Emean as [Emean ->].
  apply bind_Ok in Hrun. destruct Hrun as (ls & w5 & Eloss & Hrun).
  apply lift_Ok in Eloss. destruct Eloss as [Eloss ->].
  apply ret_Ok in Hrun. destruct Hrun as [Hrun ->].
  inversion Hrun; subst hook outputs loss; clear Hrun.
  destruct (py_getitem_Ok _ _ _ Eget) as (Hvalid & pre & post & Hf & Hlen).
  eapply call_model_hooked with (r := w_next w) in Ecall;
    [ | exact Hf | exact Hd | | ].
  - destruct Ecall as (out & Hl & Hfw & Hg & Hleaf & Hdata & Hgrad & Hhooks & Hnext & Hlog).
    simpl in Hl, Hfw, Hg, Hleaf, Hdata, Hgrad, Hhooks, Hnext, Hlog.
    rewrite upd_same in Hl. simpl in Hl.
    unfold list_getitem in Eout. rewrite Hl in Eout.
    inversion Eout; subst out0 w4; clear Eout.
    assert (Hact : forall x, layer_activation (w_data w) model li x
                             = forward_through (w_data w) (pre ++ [layer]) x).
    { intros x. unfold layer_activation. rewrite <- Hlen, Hf.
      now rewrite firstn_position. }
    unfold tensor_map in Eact, Emean, Eloss.
    apply rbind_Ok in Eact. destruct Eact as (va & Eidx & Eact).
    inversion Eact; subst act; clear Eact.
    simpl in Emean. inversion Emean; subst mn; clear Emean.
    simpl in Eloss. inversion Eloss; subst ls; clear Eloss.
    exists layer, out. simpl.
    repeat split; try assumption; try reflexivity.
    + now rewrite Hact.
    + unfold mean_activation. rewrite Hact, Hfw. simpl. now rewrite Eidx.
    + intros x. rewrite Hg. unfold mean_activation. rewrite Hact. simpl.
      destruct (forward_through (w_data w) (pre ++ [layer]) x) as [v|e];
        simpl; [|reflexivity].
      now destruct (index_0_k v ki).
  - simpl. intros m Hm Hne. rewrite upd_other by exact Hne.
    now apply fresh_not_hooked.
  - simpl. rewrite upd_same, map_app. simpl. rewrite count_occ_snoc.
    destruct (Nat.eq_dec (w_next w) (w_next w)); [|contradiction].
    assert (Hc : count_occ Nat.eq_dec (map snd (w_hooks w (m_id layer))) (w_next w) = 0)
      by (apply count_occ_not_In; now apply fresh_not_hooked).
    rewrite Hc. reflexivity.
Qed.

End ForwardLoss.

Section Steps.

Variable resize : ndarray -> Z -> Z -> result ndarray.
Variable autograd : (ndarray -> R) -> ndarray -> ndarray.
Variable adam_rule : R -> R -> nat -> R -> R -> R -> R -> R * R * R.
Variable rng : list nat -> Z.

Lemma filter_keeps_old (hs : list (nat * nat)) n :
  (forall h r, In (h, r) hs -> h < n) ->
  filter (fun h => negb (Nat.eqb (fst h) (S n))) hs = hs.
Proof.
  induction hs as [|[h r] hs IH]; intros H; [reflexivity|].
  simpl. assert (h < n) by (apply (H h r); now left).
  destruct (Nat.eqb_spec h (S n)); [lia|]. simpl.
  rewrite IH; [reflexivity|]. intros h' r' Hin. apply (H h' r'). now right.
Qed.

(** One optimisation step: the image is updated by Adam's rule with the
    gradient of the loss, the four library calls are made in order, and
    the hook installed for the step is gone. *)
Lemma optimisation_step_spec model li ki img i opt w opt' w' :
  wf_hooks w -> distinct_modules model -> params opt = [img] ->
  optimisation_step autograd adam_rule model li ki img i opt w = (Ok opt', w') ->
  let g := autograd (loss_function (w_data w) model li ki) (w_data w img) in
  let r := adam_update adam_rule (lr opt) (weight_decay opt) (state opt img)
                       (w_data w img) g in
  valid_index (features model) li
  /\ w_data w' = upd (w_data w) img (fst r)
  /\ w_grad w' img = Some g
  /\ opt' = mk_Optimizer [img] (lr opt) (weight_decay opt)
                         (upd (state opt) img (snd r))
  /\ (forall mid, w_hooks w' mid = w_hooks w mid)
  /\ w_next w' = S (S (w_next w))
  /\ w_log w' = w_log w ++ step_events model.
Proof.
  intros Hwf Hd Hp Hrun. unfold optimisation_step in Hrun.
  apply bind_Ok in Hrun. destruct Hrun as (u & w1 & Ezero & Hrun).
  unfold zero_grad in Ezero. rewrite Hp in Ezero. simpl in Ezero.
  inversion Ezero; subst u w1; clear Ezero.
  apply bind_Ok in Hrun. destruct Hrun as ([[hook outputs] loss] & w2 & Efl & Hrun).
  apply forward_loss_spec in Efl; [|exact Hwf|exact Hd].
  destruct Efl as (layer & out & Eget & -> & -> & Hl & Hact & Hval & Hg & Hleaf
                   & Hshape & Hdata & Hgrad & Hhooks & Hnext & Hlog).
  simpl in Hact, Hval, Hg, Hdata, Hgrad, Hhooks, Hnext, Hlog.
  apply bind_Ok in Hrun. destruct Hrun as (u & w3 & Eback & Hrun).
  unfold backward in Eback. rewrite Hshape, Hleaf in Eback.
  inversion Eback; subst u w3; clear Eback.
  apply bind_Ok in Hrun. destruct Hrun as (o1 & w4 & Estep & Hrun).
  unfold step in Estep. rewrite Hp in Estep.
  apply bind_Ok in Estep. destruct Estep as (u & w5 & Elog & Estep).
  unfold log in Elog. inversion Elog; subst u w5; clear Elog.
  apply bind_Ok in Estep. destruct Estep as (st & w5 & Epar & Estep).
  apply ret_Ok in Estep. destruct Estep as [-> ->].
  simpl in Epar. unfold bind, step_param in Epar. simpl in Epar.
  rewrite upd_same in Epar. unfold ret in Epar.
  inversion Epar; subst st w5; clear Epar.
  apply bind_Ok in Hrun. destruct Hrun as (u & w6 & Erem & Hrun).
  unfold remove in Erem. inversion Erem; subst u w6; clear Erem.
  apply ret_Ok in Hrun. destruct Hrun as [-> ->].
  assert (Hgf : (fun a => item (t_graph loss a))
                = loss_function (w_data w) model li ki).
  { apply functional_extensionality. intros a. unfold loss_function.
    now rewrite Hg. }
  rewrite Hgf, Hgrad, Hdata. simpl. rewrite upd_same. simpl.
  split; [apply (py_getitem_Ok _ _ _ Eget)|].
  split; [reflexivity|].
  split; [now rewrite upd_same|].
  split; [reflexivity|].
  split; [|split].
  - intros mid. rewrite Hhooks.
    destruct (Nat.eq_dec mid (m_id layer)) as [->|Hne].
    + rewrite !upd_same. rewrite filter_app. simpl.
      rewrite Nat.eqb_refl. simpl. rewrite app_nil_r.
      apply filter_keeps_old. intros h r Hin. apply Hwf in Hin. lia.
    + now rewrite !upd_other by exact Hne.
  - exact Hnext.
  - rewrite Hlog. unfold step_events. rewrite <- !app_assoc. reflexivity.
Qed.

End Steps.

Section Loops.

Variable resize : ndarray -> Z -> Z -> result ndarray.
Variable autograd : (ndarray -> R) -> ndarray -> ndarray.
Variable adam_rule : R -> R -> nat -> R -> R -> R -> R -> R * R * R.
Variable rng : list nat -> Z.

Lemma forward_through_ext d d' ms : 
  (forall m p, In m ms -> In p (m_params m) -> d p = d' p) ->
  forall x, forward_through d ms x = forward_through d' ms x.
Proof.
  induction ms as [|m ms IH]; intros H x; [reflexivity|].
  simpl.
  assert (Hm : map d (m_params m) = map d' (m_params m)).
  { apply map_ext_in. intros p Hp. apply (H m p); [now left | exact Hp]. }
  rewrite Hm. destruct (m_forward m (map d' (m_params m)) x); simpl; [|reflexivity].
  apply IH. intros m' p Hin. apply H. now right.
Qed.

(** The loss depends on the world through the parameters of the model
    only. *)
Lemma loss_function_ext d d' model li ki :
  (forall m p, In m (modules model) -> In p (m_params m) -> d p = d' p) ->
  loss_function d model li ki = loss_function d' model li ki.
Proof.
  intros H. apply functional_extensionality. intros x.
  unfold loss_function, mean_activation, layer_activation.
  rewrite (forward_through_ext d d'); [reflexivity|].
  intros m p Hin. apply H. unfold modules. apply in_or_app. left.
  rewrite <- (firstn_skipn (S (position (features model) li)) (features model)).
  apply in_or_app. now left.
Qed.

Lemma wf_hooks_step w w' :
  wf_hooks w -> (forall mid, w_hooks w' mid = w_hooks w mid) ->
  w_next w <= w_next w' -> wf_hooks w'.
Proof.
  intros Hwf Hh Hn mid h r Hin. rewrite Hh in Hin. apply Hwf in Hin. lia.
Qed.

(** The inner loop: as many steps of Adam on the loss as the loop has
    rounds, nothing but the image is written, no hook is left. *)
Lemma inner_loop_spec model li ki img d l : forall opt w opt' w',
  wf_hooks w -> distinct_modules model -> img_fresh model img ->
  params opt = [img] ->
  (forall m p, In m (modules model) -> In p (m_params m) -> w_data w p = d p) ->
  for_each l (optimisation_step autograd adam_rule model li ki img) opt w
  = (Ok opt', w') ->
  w_data w' img
  = fst (Nat.iter (length l)
                  (ascent_step autograd adam_rule (lr opt) (weight_decay opt)
                               d model li ki)
                  (w_data w img, state opt img))
  /\ (forall p, p <> img -> w_data w' p = w_data w p)
  /\ (forall mid, w_hooks w' mid = w_hooks w mid)
  /\ w_next w' = w_next w + 2 * length l
  /\ w_log w' = w_log w ++ concat (repeat (step_events model) (length l))
  /\ (l <> [] -> valid_index (features model) li).
Proof.
  induction l as [|i l IH]; intros opt w opt' w' Hwf Hd Hfresh Hp Hdata Hrun.
  - apply ret_Ok in Hrun. destruct Hrun as [-> ->]. simpl.
    split; [reflexivity|]. split; [reflexivity|]. split; [reflexivity|].
    split; [lia|]. split; [now rewrite app_nil_r|].
    intros H. now contradiction H.
  - simpl in Hrun.
    apply bind_Ok in Hrun. destruct Hrun as (opt1 & w1 & Estep & Hrun).
    apply optimisation_step_spec in Estep; [|assumption..].
    destruct Estep as (Hvalid & Hd1 & Hg1 & Hopt1 & Hh1 & Hn1 & Hl1).
    assert (Hloss : loss_function (w_data w) model li ki
                    = loss_function d model li ki)
      by (apply loss_function_ext; exact Hdata).
    rewrite Hloss in Hd1, Hopt1.
    apply IH in Hrun; [|try assumption..].
    + destruct Hrun as (Hx & Hframe & Hh & Hn & Hl & _).
      subst opt1. simpl in Hx.
      rewrite Hd1 in Hx. rewrite !upd_same in Hx.
      split; [|split; [|split; [|split; [|split]]]].
      * rewrite Hx. cbn [length]. rewrite Nat.iter_succ_r.
        unfold ascent_step at 2. cbn [fst snd].
        now rewrite <- surjective_pairing.
      * intros p Hne. rewrite Hframe by exact Hne.
        rewrite Hd1. now apply upd_other.
      * intros mid. now rewrite Hh, Hh1.
      * rewrite Hn, Hn1. cbn [length]. lia.
      * rewrite Hl, Hl1. cbn [length repeat concat].
        now rewrite <- app_assoc.
      * intros _. exact Hvalid.
    + eapply wf_hooks_step; [exact Hwf | exact Hh1 | lia].
    + now subst opt1.
    + intros m p Hm Hin. rewrite Hd1.
      rewrite upd_other by (eapply Hfresh; eassumption).
      exact (Hdata m p Hm Hin).
Qed.

(** One round of the outer loop is one stage, run on a new leaf. *)
Lemma upscaling_step_spec model li ki n imsize uf j img d w img' w' :
  wf_hooks w -> wf_model w model -> distinct_modules model -> agrees w d model ->
  upscaling_step resize autograd adam_rule model li ki n imsize uf j img w
  = (Ok img', w') ->
  stage resize autograd adam_rule d model li ki n imsize uf j (w_data w img)
  = Ok (w_data w' img')
  /\ img' = w_next w
  /\ (forall p, p < w_next w -> w_data w' p = w_data w p)
  /\ (forall mid, w_hooks w' mid = w_hooks w mid)
  /\ w_next w' = S (w_next w) + 2 * n
  /\ w_log w' = w_log w ++ stage_events model n imsize uf j
  /\ (n <> 0 -> valid_index (features model) li).
Proof.
  intros Hwf Hwm Hd Hag Hrun. unfold upscaling_step in Hrun.
  apply bind_Ok in Hrun. destruct Hrun as (a0 & w1 & Enp & Hrun).
  unfold numpy in Enp. inversion Enp; subst a0 w1; clear Enp.
  apply bind_Ok in Hrun. destruct Hrun as (a1 & w1 & Etr & Hrun).
  apply lift_Ok in Etr. destruct Etr as [Etr ->].
  apply bind_Ok in Hrun. destruct Hrun as (u & w1 & Elog & Hrun).
  unfold log in Elog. inversion Elog; subst u w1; clear Elog.
  apply bind_Ok in Hrun. destruct Hrun as (a2 & w1 & Ers & Hrun).
  apply lift_Ok in Ers. destruct Ers as [Ers ->].
  apply bind_Ok in Hrun. destruct Hrun as (a3 & w1 & Etr2 & Hrun).
  apply lift_Ok in Etr2. destruct Etr2 as [Etr2 ->].
  apply bind_Ok in Hrun. destruct Hrun as (t & w1 & Enew & Hrun).
  unfold new_leaf in Enew. inversion Enew; subst t w1; clear Enew.
  apply bind_Ok in Hrun. destruct Hrun as (opt' & w2 & Eloop & Hrun).
  apply ret_Ok in Hrun. destruct Hrun as [-> ->].
  apply inner_loop_spec with (d := d) in Eloop; simpl.
  - destruct Eloop as (Hx & Hframe & Hh & Hn & Hl & Hv).
    simpl in Hx, Hframe, Hh, Hn, Hl. unfold range in *.
    rewrite length_seq in *. rewrite upd_same in Hx.
    split; [|split; [|split; [|split; [|split; [|split]]]]].
    + unfold stage, upscale. rewrite Etr. simpl. rewrite Ers. simpl.
      rewrite Etr2. simpl. now rewrite Hx.
    + reflexivity.
    + intros p Hp. rewrite Hframe by lia. apply upd_other. lia.
    + exact Hh.
    + rewrite Hn. lia.
    + rewrite Hl. unfold stage_events. now rewrite <- app_assoc.
    + intros Hn0. apply Hv. destruct n; [contradiction|discriminate].
  - intros mid h r Hin. simpl in Hin. apply Hwf in Hin. simpl. lia.
  - exact Hd.
  - intros m p Hm Hp. apply (Hwm m p Hm) in Hp. lia.
  - reflexivity.
  - intros m p Hm Hp. simpl.
    rewrite upd_other by (apply (Hwm m p Hm) in Hp; lia).
    exact (Hag m p Hm Hp).
Qed.

(** The outer loop is the sequence of its stages. *)
Lemma outer_loop_spec model li ki n imsize uf d js : forall img w img' w',
  wf_hooks w -> wf_model w model -> distinct_modules model -> agrees w d model ->
  img < w_next w ->
  for_each js (upscaling_step resize autograd adam_rule model li ki n imsize uf)
           img w = (Ok img', w') ->
  stages resize autograd adam_rule d model li ki n imsize uf js (w_data w img)
  = Ok (w_data w' img')
  /\ (forall p, p < w_next w -> w_data w' p = w_data w p)
  /\ (forall mid, w_hooks w' mid = w_hooks w mid)
  /\ w_next w <= w_next w' /\ img' < w_next w'
  /\ w_log w' = w_log w ++ concat (map (stage_events model n imsize uf) js)
  /\ (js <> [] -> n <> 0 -> valid_index (features model) li).
Proof.
  induction js as [|j js IH]; intros img w img' w' Hwf Hwm Hd Hag Himg Hrun.
  - apply ret_Ok in Hrun. destruct Hrun as [-> ->]. simpl.
    split; [reflexivity|]. split; [reflexivity|]. split; [reflexivity|].
    split; [lia|]. split; [exact Himg|]. split; [now rewrite app_nil_r|].
    intros H. now contradiction H.
  - simpl in Hrun.
    apply bind_Ok in Hrun. destruct Hrun as (img1 & w1 & Estep & Hrun).
    apply upscaling_step_spec with (d := d) in Estep; try assumption.
    destruct Estep as (Hst & Himg1 & Hfr1 & Hh1 & Hn1 & Hl1 & Hv1).
    apply IH in Hrun.
    + destruct Hrun as (Hsts & Hfr & Hh & Hn & Hi & Hl & _).
      split; [|split; [|split; [|split; [|split; [|split]]]]].
      * simpl. rewrite Hst. simpl. exact Hsts.
      * intros p Hp. rewrite Hfr by lia. now apply Hfr1.
      * intros mid. now rewrite Hh, Hh1.
      * lia.
      * exact Hi.
      * rewrite Hl, Hl1. simpl. now rewrite <- app_assoc.
      * intros _. exact Hv1.
    + eapply wf_hooks_step; [exact Hwf | exact Hh1 | lia].
    + intros m p Hm Hp. apply (Hwm m p Hm) in Hp. lia.
    + exact Hd.
    + intros m p Hm Hp. rewrite Hfr1 by (apply (Hwm m p Hm) in Hp; lia).
      exact (Hag m p Hm Hp).
    + lia.
Qed.

(** The method, on normal return: the image is the one [maximizer]
    describes, the tensors that existed before the call keep their values,
    every module keeps its hooks, and the library calls are those of the
    stages. *)
Lemma create_feature_maximizer_spec model self li ki n b imsize us uf w r w' :
  wf_hooks w -> wf_model w model -> distinct_modules model ->
  create_feature_maximizer resize autograd adam_rule rng
                           model self li ki n b imsize us uf w = (Ok r, w') ->
  maximizer resize autograd adam_rule rng (w_data w) model li ki n imsize us uf
  = Ok r
  /\ (forall p, p < w_next w -> w_data w' p = w_data w p)
  /\ (forall mid, w_hooks w' mid = w_hooks w mid)
  /\ w_log w' = w_log w ++ run_events model n imsize us uf
  /\ (us <> 0 -> n <> 0 -> valid_index (features model) li).
Proof.
  intros Hwf Hwm Hd Hrun. unfold create_feature_maximizer in Hrun.
  apply bind_Ok in Hrun. destruct Hrun as (t & w1 & Enew & Hrun).
  unfold new_leaf in Enew. inversion Enew; subst t w1; clear Enew.
  apply bind_Ok in Hrun. destruct Hrun as (img & w2 & Eloop & Hrun).
  apply bind_Ok in Hrun. destruct Hrun as (a & w3 & Enp & Hrun).
  unfold numpy in Enp. inversion Enp; subst a w3; clear Enp.
  apply lift_Ok in Hrun. destruct Hrun as [Hfin ->].
  apply outer_loop_spec with (d := w_data w) in Eloop.
  - destruct Eloop as (Hsts & Hfr & Hh & Hn & Hi & Hl & Hv).
    simpl in Hsts, Hfr, Hh, Hn, Hl. rewrite upd_same in Hsts.
    split; [|split; [|split; [|split]]].
    + unfold maximizer. rewrite Hsts. exact Hfin.
    + intros p Hp. rewrite Hfr by lia. apply upd_other. lia.
    + exact Hh.
    + exact Hl.
    + intros Hus. apply Hv. unfold range. destruct us; [contradiction|discriminate].
  - intros mid h r0 Hin. simpl in Hin. apply Hwf in Hin. simpl. lia.
  - intros m p Hm Hp. apply (Hwm m p Hm) in Hp. simpl. lia.
  - exact Hd.
  - intros m p Hm Hp. simpl. apply upd_other. apply (Hwm m p Hm) in Hp. lia.
  - simpl. lia.
Qed.

End Loops.

(* ================================================================= *)
(** ** Shapes and the final standardisation *)

Section Shapes.

Variable resize : ndarray -> Z -> Z -> result ndarray.
Variable autograd : (ndarray -> R) -> ndarray -> ndarray.
Variable adam_rule : R -> R -> nat -> R -> R -> R -> R -> R * R * R.
Variable rng : list nat -> Z.

Hypothesis resize_ok : resize_contract resize.

Lemma shape_eqb_refl a : shape_eqb a a = true.
Proof.
  induction a as [|x a IH]; [reflexivity|].
  simpl. now rewrite Nat.eqb_refl, IH.
Qed.

Lemma is_suffix_app sv pre : is_suffix sv (pre ++ sv) = true.
Proof.
  induction pre as [|a pre IH].
  - destruct sv; cbn [app is_suffix]; now rewrite shape_eqb_refl.
  - cbn [app is_suffix]. now destruct (shape_eqb sv (a :: pre ++ sv)).
Qed.

Lemma squeeze_image_shape x s :
  shape x = [1; 3; s; s] ->
  shape (squeeze x) = if Nat.eqb s 1 then [3] else [3; s; s].
Proof.
  intros H. unfold squeeze. simpl. rewrite H. simpl.
  now destruct (Nat.eqb s 1).
Qed.


Lemma upscale_shape imsize uf j x x' s :
  shape x = [1; 3; s; s] ->
  upscale resize imsize uf j x = Ok x' ->
  (0 <= new_size uf j imsize)%Z
  /\ shape x' = [1; 3; Z.to_nat (new_size uf j imsize);
                 Z.to_nat (new_size uf j imsize)].
Proof.
  intros Hs H. unfold upscale in H.
  apply rbind_Ok in H. destruct H as (a1 & E1 & H).
  apply rbind_Ok in H. destruct H as (a2 & E2 & H).
  apply rbind_Ok in H. destruct H as (a3 & E3 & H).
  inversion H; subst x'; clear H.
  unfold transpose_120 in E1. rewrite (squeeze_image_shape x s Hs) in E1.
  destruct (Nat.eqb s 1); [discriminate|].
  inversion E1; subst a1; clear E1.
  destruct (resize_ok _ _ _ _ E2) as (Hh & _ & Hsh).
  specialize (Hsh s s 3 eq_refl).
  unfold transpose_201 in E3. rewrite Hsh in E3.
  inversion E3; subst a3; clear E3.
  split; [exact Hh | reflexivity].
Qed.

Lemma ascent_steps_shape lr wd d model li ki n s :
  shape (fst (Nat.iter n (ascent_step autograd adam_rule lr wd d model li ki) s))
  = shape (fst s).
Proof.
  induction n as [|n IH]; [reflexivity|].
  rewrite Nat.iter_succ. unfold ascent_step at 1. simpl. exact IH.
Qed.

Lemma stages_shape d model li ki n imsize uf js : forall x x' s,
  shape x = [1; 3; s; s] ->
  stages resize autograd adam_rule d model li ki n imsize uf js x = Ok x' ->
  shape x' = [1; 3; side_after imsize uf js s; side_after imsize uf js s]
  /\ forall j, In j js -> (0 <= new_size uf j imsize)%Z.
Proof.
  induction js as [|j js IH]; intros x x' s Hs H.
  - inversion H; subst. split; [exact Hs | intros j []].
  - simpl in H. apply rbind_Ok in H. destruct H as (x1 & E1 & H).
    unfold stage in E1. apply rbind_Ok in E1. destruct E1 as (x0 & E0 & E1).
    inversion E1; subst x1; clear E1.
    destruct (upscale_shape imsize uf j x x0 s Hs E0) as (Hpos & Hs0).
    eapply IH in H.
    + destruct H as (Hsh & Hall). split; [exact Hsh|].
      intros j' [<-|Hin]; [exact Hpos | now apply Hall].
    + rewrite ascent_steps_shape. exact Hs0.
Qed.

Lemma side_after_range imsize uf us :
  side_after imsize uf (range us) imsize
  = match us with
    | O => imsize
    | S k => Z.to_nat (new_size uf k imsize)
    end.
Proof.
  destruct us as [|k]; [reflexivity|].
  unfold side_after, range. rewrite seq_S, fold_left_app. reflexivity.
Qed.

Lemma broadcast_image op a v h w :
  shape a = [h; w; 3] -> shape v = [3] ->
  broadcast op a v
  = Ok {| shape := shape a;
          get := fun idx =>
            op (get a idx) (get v (skipn (length idx - ndim v) idx)) |}.
Proof.
  intros Ha Hv. unfold broadcast. rewrite Ha, Hv.
  change [h; w; 3] with ([h; w] ++ [3]). now rewrite is_suffix_app.
Qed.

(** The standardisation of an image of three channels. *)
Lemma renormalize_spec img h w :
  shape img = [h; w; 3] ->
  exists r, renormalize img = Ok r
    /\ shape r = [h; w; 3]
    /\ forall c, channel r c
                 = rescaled h w (channel img c)
                            (get imagenet_std [c]) (get imagenet_mean [c]).
Proof.
  intros Hs. unfold renormalize.
  unfold mean_axis01. rewrite Hs. cbn [rbind].
  erewrite (broadcast_image Rminus) by (first [exact Hs | reflexivity]).
  cbn [rbind].
  unfold std_axis01. cbn [shape]. rewrite Hs. cbn [rbind].
  erewrite (broadcast_image Rdiv) by (first [exact Hs | reflexivity]).
  cbn [rbind].
  erewrite (broadcast_image Rmult) by (first [exact Hs | reflexivity]).
  cbn [rbind].
  erewrite (broadcast_image Rplus) by (first [exact Hs | reflexivity]).
  eexists. split; [reflexivity|]. split; [first [exact Hs | reflexivity]|].
  intros c. reflexivity.
Qed.

(** The last lines of the method: the image is height by width by
    channel, of side other than one. *)
Lemma finish_shape x s r :
  shape x = [1; 3; s; s] ->
  rbind (moveaxis_0_2 (squeeze x)) renormalize = Ok r ->
  exists img, moveaxis_0_2 (squeeze x) = Ok img
    /\ shape img = [s; s; 3] /\ s <> 1
    /\ (forall i j c, get img [i; j; c] = get x [0; c; i; j])
    /\ shape r = [s; s; 3]
    /\ forall c, channel r c
                 = rescaled s s (channel img c)
                            (get imagenet_std [c]) (get imagenet_mean [c]).
Proof.
  intros Hs H. apply rbind_Ok in H. destruct H as (img & Emv & Hr).
  pose proof Emv as Emv'. unfold moveaxis_0_2 in Emv'.
  rewrite (squeeze_image_shape x s Hs) in Emv'.
  destruct (Nat.eqb_spec s 1) as [|Hne]; [discriminate|].
  injection Emv' as Himg.
  exists img. split; [exact Emv|]. subst img.
  split; [reflexivity|]. split; [exact Hne|].
  split.
  - intros i j c. simpl. rewrite Hs. simpl.
    destruct (Nat.eqb_spec s 1); [contradiction|]. reflexivity.
  - match type of Hr with renormalize ?a = _ =>
      destruct (renormalize_spec a s s eq_refl) as (r' & Er & Hsh & Hch)
    end.
    rewrite Er in Hr. inversion Hr; subst r'. split; assumption.
Qed.

End Shapes.

(* ================================================================= *)
(** ** What a run writes *)

(** These hold for any model, whether or not modules are shared between
    layers. *)
Section Frame.

Variable resize : ndarray -> Z -> Z -> result ndarray.
Variable autograd : (ndarray -> R) -> ndarray -> ndarray.
Variable adam_rule : R -> R -> nat -> R -> R -> R -> R -> R * R * R.
Variable rng : list nat -> Z.

Lemma call_module_frame m x w y w' :
  call_module m x w = (Ok y, w') ->
  same_but_lists w w' /\ t_leaf y = t_leaf x
  /\ forall r, exists l, w_lists w' r = w_lists w r ++ l
                         /\ Forall (fun t => t_leaf t = t_leaf x) l.
Proof.
  intros H. apply call_module_spec in H.
  destruct H as (Hs & _ & Hleaf & _ & Hl).
  split; [exact Hs|]. split; [exact Hleaf|].
  intros r. eexists. split; [apply Hl|].
  apply Forall_forall. intros t Ht. apply repeat_spec in Ht. now subst t.
Qed.

Lemma sequential_frame ms : forall x w y w',
  sequential ms x w = (Ok y, w') ->
  same_but_lists w w' /\ t_leaf y = t_leaf x
  /\ forall r, exists l, w_lists w' r = w_lists w r ++ l
                         /\ Forall (fun t => t_leaf t = t_leaf x) l.
Proof.
  induction ms as [|m ms IH]; intros x w y w' H.
  - apply ret_Ok in H. destruct H as [-> ->].
    split; [apply same_but_lists_refl|]. split; [reflexivity|].
    intros r. exists []. split; [now rewrite app_nil_r | constructor].
  - simpl in H. apply bind_Ok in H. destruct H as (x1 & w1 & E1 & H).
    apply call_module_frame in E1. destruct E1 as (S1 & L1 & Ls1).
    apply IH in H. destruct H as (S2 & L2 & Ls2).
    split; [eapply same_but_lists_trans; eassumption|].
    split; [congruence|].
    intros r. destruct (Ls1 r) as (l1 & E1 & F1).
    destruct (Ls2 r) as (l2 & E2 & F2).
    exists (l1 ++ l2). split; [now rewrite E2, E1, app_assoc|].
    apply Forall_app. split; [exact F1|].
    rewrite L1 in F2. exact F2.
Qed.

(** A forward pass writes to lists only, and what it appends was computed
    from the leaf of its input. *)
Lemma call_model_frame model x w y w' :
  call_model model x w = (Ok y, w') ->
  w_data w' = w_data w /\ w_grad w' = w_grad w /\ w_hooks w' = w_hooks w
  /\ w_next w' = w_next w
  /\ w_log w' = w_log w ++ [EvForward (model_id model)]
  /\ forall r, exists l, w_lists w' r = w_lists w r ++ l
                         /\ Forall (fun t => t_leaf t = t_leaf x) l.
Proof.
  intros H. unfold call_model in H.
  apply bind_Ok in H. destruct H as (u & w0 & Elog & H).
  unfold log in Elog. inversion Elog; subst u w0; clear Elog.
  apply bind_Ok in H. destruct H as (y1 & w1 & Eseq & H).
  apply sequential_frame in Eseq. destruct Eseq as (S1 & L1 & Ls1).
  apply call_module_frame in H. destruct H as (S2 & L2 & Ls2).
  destruct S1 as (d1 & g1 & h1 & n1 & l1).
  destruct S2 as (d2 & g2 & h2 & n2 & l2).
  simpl in d1, g1, h1, n1, l1, Ls1.
  repeat (split; [congruence|]).
  intros r. destruct (Ls1 r) as (k1 & E1 & F1).
  destruct (Ls2 r) as (k2 & E2 & F2).
  exists (k1 ++ k2). split; [now rewrite E2, E1, app_assoc|].
  apply Forall_app. split; [exact F1|]. rewrite L1 in F2. exact F2.
Qed.

Lemma forward_loss_frame model li ki img w hook outputs loss w' :
  forward_loss model li ki img w = (Ok (hook, outputs, loss), w') ->
  exists layer,
    py_getitem (features model) li = Ok layer
    /\ hook = (m_id layer, S (w_next w))
    /\ t_leaf loss = img /\ shape (t_val loss) = []
    /\ w_data w' = w_data w /\ w_grad w' = w_grad w
    /\ w_hooks w' = upd (w_hooks w) (m_id layer)
                        (w_hooks w (m_id layer) ++ [(S (w_next w), w_next w)])
    /\ w_next w' = S (S (w_next w))
    /\ w_log w' = w_log w ++ [EvForward (model_id model)].
Proof.
  intros Hrun. unfold forward_loss in Hrun.
  apply bind_Ok in Hrun. destruct Hrun as (outs & w1 & Enew & Hrun).
  unfold new_list in Enew. inversion Enew; subst outs w1; clear Enew.
  apply bind_Ok in Hrun. destruct Hrun as (layer & w1 & Eget & Hrun).
  apply lift_Ok in Eget. destruct Eget as [Eget ->].
  apply bind_Ok in Hrun. destruct Hrun as (hk & w2 & Ereg & Hrun).
  unfold register_forward_hook in Ereg. inversion Ereg; subst hk w2; clear Ereg.
  apply bind_Ok in Hrun. destruct Hrun as (x & w2 & Eleaf & Hrun).
  unfold leaf in Eleaf. inversion Eleaf; subst x w2; clear Eleaf.
  apply bind_Ok in Hrun. destruct Hrun as (y & w3 & Ecall & Hrun).
  apply bind_Ok in Hrun. destruct Hrun as (out0 & w4 & Eout & Hrun).
  apply bind_Ok in Hrun. destruct Hrun as (act & w5 & Eact & Hrun).
  apply lift_Ok in Eact. destruct Eact as [Eact ->].
  apply bind_Ok in Hrun. destruct Hrun as (mn & w5 & Emean & Hrun).
  apply lift_Ok in Emean. destruct Emean as [Emean ->].
  apply bind_Ok in Hrun. destruct Hrun as (ls & w5 & Eloss & Hrun).
  apply lift_Ok in Eloss. destruct Eloss as [Eloss ->].
  apply ret_Ok in Hrun. destruct Hrun as [Hrun ->].
  inversion Hrun; subst hook outputs loss; clear Hrun.
  apply call_model_frame in Ecall.
  destruct Ecall as (Hdata & Hgrad & Hhooks & Hnext & Hlog & Hlists).
  simpl in Hdata, Hgrad, Hhooks, Hnext, Hlog, Hlists.
  destruct (Hlists (w_next w)) as (l & El & Fl).
  rewrite upd_same in El. simpl in El.
  unfold list_getitem in Eout. rewrite El in Eout.
  assert (Eo : py_getitem l 0 = Ok out0 /\ w4 = w3) by (now inversion Eout).
  destruct Eo as [Eo ->].
  destruct (py_getitem_Ok _ _ _ Eo) as (_ & pre & post & -> & _).
  apply Forall_app in Fl. destruct Fl as [_ Fl].
  apply Forall_inv in Fl.
  unfold tensor_map in Eact, Emean, Eloss.
  apply rbind_Ok in Eact. destruct Eact as (va & Eidx & Eact).
  inversion Eact; subst act; clear Eact.
  simpl in Emean. inversion Emean; subst mn; clear Emean.
  simpl in Eloss. inversion Eloss; subst ls; clear Eloss.
  exists layer. simpl. repeat split; assumption.
Qed.

(** One optimisation step writes the image, keeping its shape, and
    nothing else; the hook it installs is removed. *)
Lemma optimisation_step_frame model li ki img i opt w opt' w' :
  wf_hooks w -> params opt = [img] ->
  optimisation_step autograd adam_rule model li ki img i opt w = (Ok opt', w') ->
  valid_index (features model) li
  /\ (exists v, w_data w' = upd (w_data w) img v
                /\ shape v = shape (w_data w img))
  /\ params opt' = [img]
  /\ (forall mid, w_hooks w' mid = w_hooks w mid)
  /\ w_next w' = S (S (w_next w))
  /\ w_log w' = w_log w ++ step_events model.
Proof.
  intros Hwf Hp Hrun. unfold optimisation_step in Hrun.
  apply bind_Ok in Hrun. destruct Hrun as (u & w1 & Ezero & Hrun).
  unfold zero_grad in Ezero. rewrite Hp in Ezero. simpl in Ezero.
  inversion Ezero; subst u w1; clear Ezero.
  apply bind_Ok in Hrun. destruct Hrun as ([[hook outputs] loss] & w2 & Efl & Hrun).
  apply forward_loss_frame in Efl.
  destruct Efl as (layer & Eget & -> & Hleaf & Hshape & Hdata & Hgrad & Hhooks
                   & Hnext & Hlog).
  simpl in Hdata, Hgrad, Hhooks, Hnext, Hlog.
  apply bind_Ok in Hrun. destruct Hrun as (u & w3 & Eback & Hrun).
  unfold backward in Eback. rewrite Hshape, Hleaf in Eback.
  inversion Eback; subst u w3; clear Eback.
  apply bind_Ok in Hrun. destruct Hrun as (o1 & w4 & Estep & Hrun).
  unfold step in Estep. rewrite Hp in Estep.
  apply bind_Ok in Estep. destruct Estep as (u & w5 & Elog & Estep).
  unfold log in Elog. inversion Elog; subst u w5; clear Elog.
  apply bind_Ok in Estep. destruct Estep as (st & w5 & Epar & Estep).
  apply ret_Ok in Estep. destruct Estep as [-> ->].
  simpl in Epar. unfold bind, step_param in Epar. simpl in Epar.
  rewrite upd_same in Epar. unfold ret in Epar.
  inversion Epar; subst st w5; clear Epar.
  apply bind_Ok in Hrun. destruct Hrun as (u & w6 & Erem & Hrun).
  unfold remove in Erem. inversion Erem; subst u w6; clear Erem.
  apply ret_Ok in Hrun. destruct Hrun as [-> ->].
  split; [apply (py_getitem_Ok _ _ _ Eget)|].
  split.
  { eexists. simpl. rewrite Hdata. split; reflexivity. }
  split; [reflexivity|].
  split; [|split].
  - intros mid. simpl. rewrite Hhooks.
    destruct (Nat.eq_dec mid (m_id layer)) as [->|Hne].
    + rewrite !upd_same. rewrite filter_app. simpl.
      rewrite Nat.eqb_refl. simpl. rewrite app_nil_r.
      apply filter_keeps_old. intros h r Hin. apply Hwf in Hin. lia.
    + now rewrite !upd_other by exact Hne.
  - exact Hnext.
  - simpl. rewrite Hlog. unfold step_events. simpl.
    rewrite <- !app_assoc. reflexivity.
Qed.

Lemma inner_loop_frame model li ki img l : forall opt w opt' w',
  wf_hooks w -> params opt = [img] ->
  for_each l (optimisation_step autograd adam_rule model li ki img) opt w
  = (Ok opt', w') ->
  shape (w_data w' img) = shape (w_data w img)
  /\ (forall p, p <> img -> w_data w' p = w_data w p)
  /\ (forall mid, w_hooks w' mid = w_hooks w mid)
  /\ w_next w' = w_next w + 2 * length l
  /\ w_log w' = w_log w ++ concat (repeat (step_events model) (length l))
  /\ (l <> [] -> valid_index (features model) li).
Proof.
  induction l as [|i l IH]; intros opt w opt' w' Hwf Hp Hrun.
  - apply ret_Ok in Hrun. destruct Hrun as [-> ->]. simpl.
    split; [reflexivity|]. split; [reflexivity|]. split; [reflexivity|].
    split; [lia|]. split; [now rewrite app_nil_r|].
    intros H. now contradiction H.
  - simpl in Hrun.
    apply bind_Ok in Hrun. destruct Hrun as (opt1 & w1 & Estep & Hrun).
    apply optimisation_step_frame in Estep; [|assumption..].
    destruct Estep as (Hvalid & (v & Hd1 & Hv) & Hp1 & Hh1 & Hn1 & Hl1).
    apply IH in Hrun; [|try assumption..].
    + destruct Hrun as (Hx & Hframe & Hh & Hn & Hl & _).
      split; [|split; [|split; [|split; [|split]]]].
      * rewrite Hx, Hd1, upd_same. exact Hv.
      * intros p Hne. rewrite Hframe by exact Hne.
        rewrite Hd1. now apply upd_other.
      * intros mid. now rewrite Hh, Hh1.
      * rewrite Hn, Hn1. cbn [length]. lia.
      * rewrite Hl, Hl1. cbn [length repeat concat].
        now rewrite <- app_assoc.
      * intros _. exact Hvalid.
    + eapply wf_hooks_step; [exact Hwf | exact Hh1 | lia].
Qed.

Lemma upscaling_step_frame model li ki n imsize uf j img w img' w' :
  wf_hooks w ->
  upscaling_step resize autograd adam_rule model li ki n imsize uf j img w
  = (Ok img', w') ->
  img' = w_next w
  /\ (exists x0, upscale resize imsize uf j (w_data w img) = Ok x0
                 /\ shape (w_data w' img') = shape x0)
  /\ (forall p, p < w_next w -> w_data w' p = w_data w p)
  /\ (forall mid, w_hooks w' mid = w_hooks w mid)
  /\ w_next w' = S (w_next w) + 2 * n
  /\ w_log w' = w_log w ++ stage_events model n imsize uf j
  /\ (n <> 0 -> valid_index (features model) li).
Proof.
  intros Hwf Hrun. unfold upscaling_step in Hrun.
  apply bind_Ok in Hrun. destruct Hrun as (a0 & w1 & Enp & Hrun).
  unfold numpy in Enp. inversion Enp; subst a0 w1; clear Enp.
  apply bind_Ok in Hrun. destruct Hrun as (a1 & w1 & Etr & Hrun).
  apply lift_Ok in Etr. destruct Etr as [Etr ->].
  apply bind_Ok in Hrun. destruct Hrun as (u & w1 & Elog & Hrun).
  unfold log in Elog. inversion Elog; subst u w1; clear Elog.
  apply bind_Ok in Hrun. destruct Hrun as (a2 & w1 & Ers & Hrun).
  apply lift_Ok in Ers. destruct Ers as [Ers ->].
  apply bind_Ok in Hrun. destruct Hrun as (a3 & w1 & Etr2 & Hrun).
  apply lift_Ok in Etr2. destruct Etr2 as [Etr2 ->].
  apply bind_Ok in Hrun. destruct Hrun as (t & w1 & Enew & Hrun).
  unfold new_leaf in Enew. inversion Enew; subst t w1; clear Enew.
  apply bind_Ok in Hrun. destruct Hrun as (opt' & w2 & Eloop & Hrun).
  apply ret_Ok in Hrun. destruct Hrun as [-> ->].
  apply inner_loop_frame in Eloop.
  - destruct Eloop as (Hx & Hframe & Hh & Hn & Hl & Hv).
    simpl in Hx, Hframe, Hh, Hn, Hl. unfold range in *.
    rewrite length_seq in *. rewrite upd_same in Hx.
    split; [reflexivity|].
    split.
    { eexists. split; [|exact Hx].
      unfold upscale. rewrite Etr. simpl. rewrite Ers. simpl.
      now rewrite Etr2. }
    split; [|split; [|split; [|split]]].
    + intros p Hp. rewrite Hframe by lia. apply upd_other. lia.
    + exact Hh.
    + rewrite Hn. lia.
    + rewrite Hl. unfold stage_events. now rewrite <- app_assoc.
    + intros Hn0. apply Hv. destruct n; [contradiction|discriminate].
  - intros mid h r Hin. simpl in Hin. apply Hwf in Hin. simpl. lia.
  - reflexivity.
Qed.

Lemma outer_loop_frame model li ki n imsize uf js : forall img w img' w',
  wf_hooks w -> img < w_next w ->
  for_each js (upscaling_step resize autograd adam_rule model li ki n imsize uf)
           img w = (Ok img', w') ->
  (forall p, p < w_next w -> w_data w' p = w_data w p)
  /\ (forall mid, w_hooks w' mid = w_hooks w mid)
  /\ w_next w <= w_next w' /\ img' < w_next w'
  /\ w_log w' = w_log w ++ concat (map (stage_events model n imsize uf) js)
  /\ (js <> [] -> n <> 0 -> valid_index (features model) li)
  /\ (resize_contract resize ->
      forall s, shape (w_data w img) = [1; 3; s; s] ->
        shape (w_data w' img')
        = [1; 3; side_after imsize uf js s; side_after imsize uf js s]
        /\ forall j, In j js -> (0 <= new_size uf j imsize)%Z).
Proof.
  induction js as [|j js IH]; intros img w img' w' Hwf Himg Hrun.
  - apply ret_Ok in Hrun. destruct Hrun as [-> ->]. simpl.
    split; [reflexivity|]. split; [reflexivity|].
    split; [lia|]. split; [exact Himg|]. split; [now rewrite app_nil_r|].
    split; [intros H; now contradiction H|].
    intros _ s Hs. split; [exact Hs | intros j []].
  - simpl in Hrun.
    apply bind_Ok in Hrun. destruct Hrun as (img1 & w1 & Estep & Hrun).
    apply upscaling_step_frame in Estep; [|exact Hwf].
    destruct Estep as (Himg1 & (x0 & Eup & Hsx) & Hfr1 & Hh1 & Hn1 & Hl1 & Hv1).
    apply IH in Hrun.
    + destruct Hrun as (Hfr & Hh & Hn & Hi & Hl & _ & Hshape).
      split; [|split; [|split; [|split; [|split; [|split]]]]].
      * intros p Hp. rewrite Hfr by lia. now apply Hfr1.
      * intros mid. now rewrite Hh, Hh1.
      * lia.
      * exact Hi.
      * rewrite Hl, Hl1. simpl. now rewrite <- app_assoc.
      * intros _. exact Hv1.
      * intros Hres s Hs.
        destruct (upscale_shape resize Hres imsize uf j _ x0 s Hs Eup)
          as (Hpos & Hs0).
        rewrite <- Hsx in Hs0.
        destruct (Hshape Hres _ Hs0) as (Hfin & Hall).
        split; [exact Hfin|].
        intros j' [<-|Hin]; [exact Hpos | now apply Hall].
    + eapply wf_hooks_step; [exact Hwf | exact Hh1 | lia].
    + lia.
Qed.

(** The method, on normal return, for any model: the image returned is
    the standardisation of the tensor the method reads at the end; when the
    modules of the model are distinct objects that tensor is the last
    iterate of the stages. *)
Lemma create_feature_maximizer_frame model self li ki n b imsize us uf w r w' :
  wf_hooks w ->
  create_feature_maximizer resize autograd adam_rule rng
                           model self li ki n b imsize us uf w = (Ok r, w') ->
  (exists img, rbind (moveaxis_0_2 (squeeze (w_data w' img))) renormalize = Ok r
               /\ (resize_contract resize ->
                   shape (w_data w' img)
                   = [1; 3; side_after imsize uf (range us) imsize;
                      side_after imsize uf (range us) imsize]
                   /\ forall j, j < us -> (0 <= new_size uf j imsize)%Z)
               /\ (wf_model w model -> distinct_modules model ->
                   stages resize autograd adam_rule (w_data w) model li ki n
                          imsize uf (range us) (unsqueeze0 (random_image rng imsize))
                   = Ok (w_data w' img)))
  /\ (forall p, p < w_next w -> w_data w' p = w_data w p)
  /\ (forall mid, w_hooks w' mid = w_hooks w mid)
  /\ w_log w' = w_log w ++ run_events model n imsize us uf
  /\ (us <> 0 -> n <> 0 -> valid_index (features model) li).
Proof.
  intros Hwf Hrun. unfold create_feature_maximizer in Hrun.
  apply bind_Ok in Hrun. destruct Hrun as (t & w1 & Enew & Hrun).
  unfold new_leaf in Enew. inversion Enew; subst t w1; clear Enew.
  apply bind_Ok in Hrun. destruct Hrun as (img & w2 & Eloop & Hrun).
  apply bind_Ok in Hrun. destruct Hrun as (a & w3 & Enp & Hrun).
  unfold numpy in Enp. inversion Enp; subst a w3; clear Enp.
  apply lift_Ok in Hrun. destruct Hrun as [Hfin ->].
  pose proof Eloop as Espec.
  apply outer_loop_frame in Eloop.
  - destruct Eloop as (Hfr & Hh & Hn & Hi & Hl & Hv & Hshape).
    simpl in Hfr, Hh, Hn, Hl, Hshape.
    split; [|split; [|split; [|split]]].
    + exists img. split; [exact Hfin|]. split.
      * intros Hres.
        destruct (Hshape Hres imsize) as (Hs & Hall);
          [now rewrite upd_same|].
        split; [exact Hs|].
        intros j Hj. apply Hall. unfold range. apply in_seq. lia.
      * intros Hwm Hd.
        apply outer_loop_spec with (d := w_data w) in Espec.
        -- destruct Espec as (Hsts & _). simpl in Hsts.
           now rewrite upd_same in Hsts.
        -- intros mid h r0 Hin. simpl in Hin. apply Hwf in Hin. simpl. lia.
        -- intros m p Hm Hp. apply (Hwm m p Hm) in Hp. simpl. lia.
        -- exact Hd.
        -- intros m p Hm Hp. simpl. apply upd_other.
           apply (Hwm m p Hm) in Hp. lia.
        -- simpl. lia.
    + intros p Hp. rewrite Hfr by lia. apply upd_other. lia.
    + exact Hh.
    + exact Hl.
    + intros Hus. apply Hv. unfold range. destruct us; [contradiction|discriminate].
  - intros mid h r0 Hin. simpl in Hin. apply Hwf in Hin. simpl. lia.
  - simpl. lia.
Qed.

End Frame.

(* ================================================================= *)
(** ** Facts about the small instance *)

Section SmallFacts.

Lemma small_resize_contract : resize_contract Small.resize.
Proof.
  intros a h w b H. unfold Small.resize in H.
  destruct ((h <? 0)%Z || (w <? 0)%Z) eqn:E; [discriminate|].
  apply orb_false_iff in E. destruct E as [E1 E2].
  apply Z.ltb_ge in E1. apply Z.ltb_ge in E2.
  split; [exact E1|]. split; [exact E2|].
  intros s0 s1 c Hs. rewrite Hs in H. now inversion H.
Qed.

Lemma small_wf_hooks : wf_hooks Small.world.
Proof. intros mid h r []. Qed.

Lemma small_wf_model : wf_model Small.world Small.model.
Proof.
  intros md p Hm Hp. simpl in Hm.
  destruct Hm as [<-|[<-|[<-|[]]]]; simpl in Hp;
    repeat (destruct Hp as [<-|Hp]; [simpl; lia|]); destruct Hp.
Qed.

Lemma small_distinct : distinct_modules Small.model.
Proof.
  unfold distinct_modules. simpl.
  repeat constructor; simpl; intuition lia.
Qed.



End SmallFacts.

(* ================================================================= *)
(** ** Sizes of the stages *)

Section Sizes.




End Sizes.

(* ================================================================= *)
(** ** The claims *)

Section Returned.

Variable resize : ndarray -> Z -> Z -> result ndarray.
Variable autograd : (ndarray -> R) -> ndarray -> ndarray.
Variable adam_rule : R -> R -> nat -> R -> R -> R -> R -> R * R * R.
Variable rng : list nat -> Z.

Lemma random_image_shape imsize :
  shape (unsqueeze0 (random_image rng imsize)) = [1; 3; imsize; imsize].
Proof. reflexivity. Qed.

(** On normal return the image is the standardisation of the tensor [t]
    the method reads at the end: a batch of one image of three channels,
    square and of a side other than one; for a model with distinct modules
    that tensor is the last iterate of the stages. *)
Lemma returned_image model self li ki n b imsize us uf w r w' :
  resize_contract resize -> wf_hooks w ->
  create_feature_maximizer resize autograd adam_rule rng
                           model self li ki n b imsize us uf w = (Ok r, w') ->
  exists t img s,
    shape (w_data w' t) = [1; 3; s; s]
    /\ s = match us with
           | O => imsize
           | S k => Z.to_nat (new_size uf k imsize)
           end
    /\ (forall j, j < us -> (0 <= new_size uf j imsize)%Z)
    /\ moveaxis_0_2 (squeeze (w_data w' t)) = Ok img
    /\ shape img = [s; s; 3] /\ s <> 1
    /\ (forall i j c, get img [i; j; c] = get (w_data w' t) [0; c; i; j])
    /\ shape r = [s; s; 3]
    /\ (forall c, channel r c
                  = rescaled s s (channel img c)
                             (get imagenet_std [c]) (get imagenet_mean [c]))
    /\ (wf_model w model -> distinct_modules model ->
        stages resize autograd adam_rule (w_data w) model li ki n
               imsize uf (range us) (unsqueeze0 (random_image rng imsize))
        = Ok (w_data w' t)).
Proof.
  intros Hres Hwf Hrun.
  apply create_feature_maximizer_frame in Hrun; [|exact Hwf].
  destruct Hrun as ((t & Hfin & Hshape & Hst) & _).
  destruct (Hshape Hres) as (Hsx & Hpos).
  rewrite side_after_range in Hsx.
  destruct (finish_shape (w_data w' t) _ r Hsx Hfin)
    as (img & Emv & Hsi & Hne & Hget & Hsr & Hch).
  exists t, img, (match us with
                  | O => imsize
                  | S k => Z.to_nat (new_size uf k imsize)
                  end).
  repeat (split; [assumption || reflexivity|]). exact Hst.
Qed.

End Returned.


Lemma succeeds_run {A} (x : result A * World) :
  succeeds x = true -> exists a w', x = (Ok a, w').
Proof.
  destruct x as [[a|e] w']; unfold succeeds; simpl; intros H.
  - now exists a, w'.
  - discriminate.
Defined.



Lemma small_wf_start : wf_hooks Small.start.
Proof. intros mid h r []. Qed.



(** The library calls of that run, written out: two stages of side two,
    two steps each. *)
Example run_events_small :
  run_events Small.model 2 2 2 (6 # 5)
  = [EvResize 2 2; EvZeroGrad; EvForward 7; EvBackward; EvStep;
     EvZeroGrad; EvForward 7; EvBackward; EvStep;
     EvResize 2 2; EvZeroGrad; EvForward 7; EvBackward; EvStep;
     EvZeroGrad; EvForward 7; EvBackward; EvStep].
Proof. reflexivity. Qed.

(** The sides of the notebook's own call, [imsize=32] and
    [upscaling_factor=1.3]. *)
Example new_size_notebook :
  map (fun j => new_size (13 # 10) j 32) (range 10)
  = [32; 41; 54; 70; 91; 118; 154; 200; 261; 339]%Z.
Proof. vm_compute. reflexivity. Qed.


(** C4. [create_feature_maximizer] leaves the model unchanged: on normal
    return every parameter of the model has the value it had before the
    call, as has every tensor that existed before the call, and every module
    has the forward hooks it had, none of those the call registered. *)
Theorem model_is_left_unchanged
        resize autograd adam_rule rng model self li ki n b imsize us uf w r w' :
  wf_hooks w -> wf_model w model ->
  create_feature_maximizer resize autograd adam_rule rng
                           model self li ki n b imsize us uf w = (Ok r, w') ->
  (forall m p, In m (modules model) -> In p (m_params m) ->
               w_data w' p = w_data w p)
  /\ (forall p, p < w_next w -> w_data w' p = w_data w p)
  /\ (forall mid, w_hooks w' mid = w_hooks w mid).
Proof.
  intros Hwf Hwm Hrun.
  apply create_feature_maximizer_frame in Hrun; [|exact Hwf].
  destruct Hrun as (_ & Hframe & Hhooks & _).
  split; [|split].
  - intros m p Hm Hp. apply Hframe. exact (Hwm m p Hm Hp).
  - exact Hframe.
  - exact Hhooks.
Qed.

Lemma model_is_left_unchanged_witness :
  exists r w',
    create_feature_maximizer Small.resize Small.autograd Small.adam_rule Small.rng
      Small.model (FeatureVisualizer_init Small.model) 0 0 2 (1 / 10)%R 2 2 (6 # 5)
      Small.world = (Ok r, w')
    /\ w_data w' 0 = w_data Small.world 0
    /\ (forall mid, w_hooks w' mid = w_hooks Small.world mid).
Proof.
  assert (Hs : succeeds (create_feature_maximizer
                           Small.resize Small.autograd Small.adam_rule Small.rng
                           Small.model (FeatureVisualizer_init Small.model)
                           0 0 2 (1 / 10)%R 2 2 (6 # 5) Small.world) = true)
    by (vm_compute; reflexivity).
  destruct (succeeds_run _ Hs) as (r & w' & E).
  destruct (model_is_left_unchanged
              Small.resize Small.autograd Small.adam_rule Small.rng
              Small.model (FeatureVisualizer_init Small.model)
              0 0 2 (1 / 10)%R 2 2 (6 # 5) Small.world r w'
              small_wf_hooks small_wf_model E)
    as (Hp & _ & Hh).
  exists r, w'. split; [exact E|]. split; [|exact Hh].
  apply (Hp (Small.scale 10 0) 0); simpl; auto.
Defined.

(** C7. Two runs of [create_feature_maximizer] that differ in
    [gaussian_blur] only are the same computation: from the same world and
    the same random draws they return the same image and leave the same
    world. The argument is never read and nothing is blurred. *)
Theorem gaussian_blur_is_ignored
        resize autograd adam_rule rng model self li ki n b1 b2 imsize us uf :
  create_feature_maximizer resize autograd adam_rule rng
                           model self li ki n b1 imsize us uf
  = create_feature_maximizer resize autograd adam_rule rng
                             model self li ki n b2 imsize us uf.
Proof. reflexivity. Qed.

(** C2 fails on the code. The forward passes of
    [create_feature_maximizer] are those of the global [model], whatever
    model the visualizer was built with: the method is the same computation
    for any two visualizers, and on a visualizer built with another model
    its forward pass is logged for the global one. *)
Theorem maximizer_runs_global_model :
  (forall resize autograd adam_rule rng model m1 m2 li ki n b imsize us uf,
      create_feature_maximizer resize autograd adam_rule rng model
                               (FeatureVisualizer_init m1) li ki n b imsize us uf
      = create_feature_maximizer resize autograd adam_rule rng model
                                 (FeatureVisualizer_init m2) li ki n b imsize us uf)
  /\ exists r w',
      create_feature_maximizer Small.resize Small.autograd Small.adam_rule Small.rng
        Small.model (FeatureVisualizer_init Small.other) 0 0 1 (1 / 10)%R 2 1 (6 # 5)
        Small.world = (Ok r, w')
      /\ w_log w' = [EvResize 2 2; EvZeroGrad; EvForward (model_id Small.model);
                     EvBackward; EvStep]
      /\ model_id Small.model <> model_id Small.other.
Proof.
  split; [reflexivity|].
  assert (Hs : succeeds (create_feature_maximizer
                           Small.resize Small.autograd Small.adam_rule Small.rng
                           Small.model (FeatureVisualizer_init Small.other)
                           0 0 1 (1 / 10)%R 2 1 (6 # 5) Small.world) = true)
    by (vm_compute; reflexivity).
  destruct (succeeds_run _ Hs) as (r & w' & E).
  exists r, w'. split; [exact E|].
  apply create_feature_maximizer_spec in E;
    [|exact small_wf_hooks|exact small_wf_model|exact small_distinct].
  destruct E as (_ & _ & _ & Hlog & _).
  split; [exact Hlog | discriminate].
Qed.

(** C8. On normal return of [create_feature_maximizer] the returned image
    is the optimised image (the tensor [t] the method reads at the end; for
    a model with distinct modules, the last iterate of the stages), height
    by width by channel, standardised: each colour channel whose standard
    deviation in the optimised image is not zero has, in exact arithmetic,
    mean the entry of [[0.485, 0.456, 0.406]] and standard deviation the
    entry of [[0.229, 0.224, 0.225]] for that channel. *)
Theorem returned_channels_are_standardised
        resize autograd adam_rule rng model self li ki n b imsize us uf w r w' :
  resize_contract resize -> wf_hooks w ->
  create_feature_maximizer resize autograd adam_rule rng
                           model self li ki n b imsize us uf w = (Ok r, w') ->
  exists t img s,
    moveaxis_0_2 (squeeze (w_data w' t)) = Ok img
    /\ (wf_model w model -> distinct_modules model ->
        stages resize autograd adam_rule (w_data w) model li ki n imsize uf
               (range us) (unsqueeze0 (random_image rng imsize))
        = Ok (w_data w' t))
    /\ shape img = [s; s; 3] /\ shape r = [s; s; 3]
    /\ forall c, c < 3 -> std2 s s (channel img c) <> 0%R ->
         mean2 s s (channel r c) = get imagenet_mean [c]
         /\ std2 s s (channel r c) = get imagenet_std [c].
Proof.
  intros Hres Hwf Hrun.
  destruct (returned_image resize autograd adam_rule rng model self li ki n b
                           imsize us uf w r w' Hres Hwf Hrun)
    as (t & img & s & _ & _ & _ & Hmv & Hsi & _ & _ & Hsr & Hch & Hst).
  exists t, img, s.
  split; [exact Hmv|]. split; [exact Hst|]. split; [exact Hsi|].
  split; [exact Hsr|].
  intros c Hc Hsd. rewrite (Hch c). split.
  - now apply rescaled_mean.
  - apply rescaled_std; [exact Hsd|].
    destruct c as [|[|[|c]]]; simpl; solve [lra | lia].
Qed.

(** The entries of the two vectors. *)
Example imagenet_entries :
  map (fun c => get imagenet_mean [c]) [0; 1; 2]
  = [485 / 1000; 456 / 1000; 406 / 1000]%R
  /\ map (fun c => get imagenet_std [c]) [0; 1; 2]
     = [229 / 1000; 224 / 1000; 225 / 1000]%R.
Proof. split; reflexivity. Qed.

(** The first channel of the small random image is not constant. *)
Lemma small_channel_std :
  std2 2 2 (fun i j => Rdiv (IZR (Small.rng [0; i; j])) 255) <> 0%R.
Proof.
  apply Rgt_not_eq. unfold std2. apply sqrt_lt_R0.
  unfold mean2, sum2, Rsqr. simpl. lra.
Qed.

Lemma returned_channels_are_standardised_witness :
  exists r w',
    create_feature_maximizer Small.resize Small.autograd Small.adam_rule Small.rng
      Small.model (FeatureVisualizer_init Small.model) 0 0 2 (1 / 10)%R 2 0 (6 # 5)
      Small.world = (Ok r, w')
    /\ mean2 2 2 (channel r 0) = (485 / 1000)%R
    /\ std2 2 2 (channel r 0) = (229 / 1000)%R.
Proof.
  assert (Hs : succeeds (create_feature_maximizer
                           Small.resize Small.autograd Small.adam_rule Small.rng
                           Small.model (FeatureVisualizer_init Small.model)
                           0 0 2 (1 / 10)%R 2 0 (6 # 5) Small.world) = true)
    by (vm_compute; reflexivity).
  destruct (succeeds_run _ Hs) as (r & w' & E).
  destruct (returned_channels_are_standardised
              Small.resize Small.autograd Small.adam_rule Small.rng
              Small.model (FeatureVisualizer_init Small.model) 0 0 2 (1 / 10)%R
              2 0 (6 # 5) Small.world r w'
              small_resize_contract small_wf_hooks E)
    as (t & img & s & Hmv & Hst & Hsi & _ & Hall).
  specialize (Hst small_wf_model small_distinct).
  simpl in Hst. injection Hst as Hst. rewrite <- Hst in Hmv.
  injection Hmv as <-. injection Hsi as <-.
  exists r, w'. split; [exact E|].
  apply (Hall 0); [lia|]. exact small_channel_std.
Defined.






(* ================================================================= *)
(** ** [get_mean_layer_activations] *)

Section MeanActivations.

Variable PILImage : Type.
Variable Image_open : String.string -> result PILImage.
Variable Resize : nat -> PILImage -> result PILImage.
Variable ToTensor : PILImage -> result ndarray.

Lemma layer_activation_ext d d' model li x :
  (forall m p, In m (modules model) -> In p (m_params m) -> d p = d' p) ->
  layer_activation d model li x = layer_activation d' model li x.
Proof.
  intros H. unfold layer_activation. apply forward_through_ext.
  intros m p Hin. apply H. unfold modules. apply in_or_app. left.
  rewrite <- (firstn_skipn (S (position (features model) li)) (features model)).
  apply in_or_app. now left.
Qed.



End MeanActivations.



(** C6, as amended. Neither method validates its arguments or catches an
    exception. [get_mean_layer_activations] fails with the error of the
    library for every [image_path] that cannot be opened, and, for every
    [layer_index] outside the valid range of the features of [self.model],
    with the error raised while loading the image or else with the
    [IndexError] of the indexing. [create_feature_maximizer] names
    [layer_index] in the body of its inner loop only: when [n_steps] and
    [upscaling_steps] are both at least one, for every [layer_index] outside
    the valid range of the features of the model it fails, with the error
    raised while the image is resized for the first stage or else with the
    [IndexError] of the indexing. *)
Theorem library_errors_propagate
        resize autograd adam_rule rng PILImage Image_open Resize ToTensor
        model self li :
  ~ valid_index (features model) li ->
  ~ valid_index (features (self_model self)) li ->
  (forall path imsize w e li',
      Image_open path = Raise e ->
      fst (get_mean_layer_activations PILImage Image_open Resize ToTensor
                                      self path li' imsize w) = Raise e)
  /\ (forall path imsize w,
         fst (get_mean_layer_activations PILImage Image_open Resize ToTensor
                                         self path li imsize w)
         = Raise match rbind (Image_open path) (loader PILImage Resize ToTensor imsize) with
                 | Raise e => e
                 | Ok _ => IndexError
                 end)
  /\ (forall ki n b imsize us uf w,
         n <> 0 -> us <> 0 ->
         fst (create_feature_maximizer resize autograd adam_rule rng
                                       model self li ki n b imsize us uf w)
         = Raise match upscale resize imsize uf 0
                               (unsqueeze0 (random_image rng imsize)) with
                 | Raise e => e
                 | Ok _ => IndexError
                 end).
Proof.
  intros Hglobal Hself. split; [|split].
  - intros path imsize w e li' Hopen.
    unfold get_mean_layer_activations, image_loader, bind, new_list, lift.
    now rewrite Hopen.
  - intros path imsize w.
    unfold get_mean_layer_activations, image_loader, bind, new_list, lift,
      new_leaf, leaf.
    destruct (Image_open path) as [image|e]; simpl; [|reflexivity].
    destruct (loader PILImage Resize ToTensor imsize image) as [t|e];
      simpl; [|reflexivity].
    now rewrite (py_getitem_invalid _ _ Hself).
  - intros ki n b imsize us uf w Hn Hus.
    destruct n as [|n]; [contradiction|]. destruct us as [|us]; [contradiction|].
    unfold create_feature_maximizer, range. cbn [seq for_each].
    unfold bind at 1. unfold new_leaf at 1.
    unfold bind at 1. unfold bind at 1.
    unfold upscaling_step at 1, upscale.
    unfold bind at 1. unfold numpy at 1. cbn [w_data set_next set_grad set_data].
    rewrite upd_same.
    unfold bind at 1. unfold lift at 1.
    destruct (transpose_120 (squeeze (unsqueeze0 (random_image rng imsize))))
      as [a1|e]; cbn [rbind]; [|reflexivity].
    unfold bind at 1. unfold log at 1.
    unfold bind at 1. unfold lift at 1.
    destruct (resize a1 (new_size uf 0 imsize) (new_size uf 0 imsize))
      as [a2|e]; cbn [rbind]; [|reflexivity].
    unfold bind at 1. unfold lift at 1.
    destruct (transpose_201 a2) as [a3|e]; cbn [rbind]; [|reflexivity].
    unfold bind at 1. unfold new_leaf at 1.
    unfold bind at 1. cbn [seq for_each].
    unfold bind at 1. unfold optimisation_step at 1.
    unfold bind at 1. unfold zero_grad at 1.
    unfold bind at 1. unfold forward_loss at 1.
    unfold bind at 1. unfold new_list at 1.
    unfold bind at 1. unfold lift at 1.
    now rewrite (py_getitem_invalid _ _ Hglobal).
Qed.

Lemma small_invalid_index : ~ valid_index (features Small.model) 5.
Proof. unfold valid_index. simpl. lia. Qed.

Lemma library_errors_propagate_witness :
  fst (get_mean_layer_activations Small.PILImage Small.Image_open Small.Resize
         Small.ToTensor (FeatureVisualizer_init Small.model)
         Files.dog_jpg 0 2 Small.world) = Raise OSError
  /\ fst (get_mean_layer_activations Small.PILImage Small.Image_open Small.Resize
            Small.ToTensor (FeatureVisualizer_init Small.model)
            Files.cat_jpg 5 2 Small.world) = Raise IndexError
  /\ fst (create_feature_maximizer Small.resize Small.autograd Small.adam_rule
            Small.rng Small.model (FeatureVisualizer_init Small.model)
            5 0 1 (1 / 10)%R 2 1 (6 # 5) Small.world) = Raise IndexError.
Proof.
  destruct (library_errors_propagate
              Small.resize Small.autograd Small.adam_rule Small.rng
              Small.PILImage Small.Image_open Small.Resize Small.ToTensor
              Small.model (FeatureVisualizer_init Small.model) 5
              small_invalid_index small_invalid_index) as (Hopen & Hidx & Hmax).
  split; [|split].
  - exact (Hopen Files.dog_jpg 2 Small.world OSError 0%Z eq_refl).
  - exact (Hidx Files.cat_jpg 2 Small.world).
  - refine (Hmax 0%Z 1 (1 / 10)%R 2 1 (6 # 5)%Q Small.world _ _); discriminate.
Defined.

(** C6 as it was stated fails: with [n_steps = 0] the body of the inner
    loop is never run, and [create_feature_maximizer] returns an image for
    a [layer_index] that is outside the valid range. *)
Lemma unused_layer_index_is_not_checked :
  exists r w',
    create_feature_maximizer Small.resize Small.autograd Small.adam_rule Small.rng
      Small.model (FeatureVisualizer_init Small.model) 5 0 0 (1 / 10)%R 2 2 (6 # 5)
      Small.world = (Ok r, w')
    /\ ~ valid_index (features Small.model) 5.
Proof.
  assert (Hs : succeeds (create_feature_maximizer
                           Small.resize Small.autograd Small.adam_rule Small.rng
                           Small.model (FeatureVisualizer_init Small.model)
                           5 0 0 (1 / 10)%R 2 2 (6 # 5) Small.world) = true)
    by (vm_compute; reflexivity).
  destruct (succeeds_run _ Hs) as (r & w' & E).
  exists r, w'. split; [exact E | exact small_invalid_index].
Qed.

(* ================================================================= *)
(** ** Whether a run returns *)

Section Outcomes.

Variable resize : ndarray -> Z -> Z -> result ndarray.
Variable autograd : (ndarray -> R) -> ndarray -> ndarray.
Variable adam_rule : R -> R -> nat -> R -> R -> R -> R -> R * R * R.
Variable rng : list nat -> Z.

Lemma bind_run {A B} (m : M A) (f : A -> M B) w a w1 :
  m w = (Ok a, w1) -> bind m f w = f a w1.
Proof. unfold bind. now intros ->. Qed.

Lemma bind_raise {A B} (m : M A) (f : A -> M B) w e w1 :
  m w = (Raise e, w1) -> bind m f w = (Raise e, w1).
Proof. unfold bind. now intros ->. Qed.

(** A module returns exactly when its [forward] does: hooks never raise. *)
Lemma call_module_outcome m x w :
  match m_forward m (map (w_data w) (m_params m)) (t_val x) with
  | Ok v => exists y w', call_module m x w = (Ok y, w') /\ t_val y = v
  | Raise e => call_module m x w = (Raise e, w)
  end.
Proof.
  unfold call_module.
  destruct (m_forward m (map (w_data w) (m_params m)) (t_val x)) as [v|e];
    [|reflexivity].
  match goal with |- context [run_hooks ?hs ?o w] =>
    destruct (run_hooks_spec hs o w) as (w1 & Hrun & _); rewrite Hrun
  end.
  eexists. eexists. split; reflexivity.
Qed.

Lemma sequential_outcome ms : forall x w,
  match forward_through (w_data w) ms (t_val x) with
  | Ok v => exists y w', sequential ms x w = (Ok y, w') /\ t_val y = v
  | Raise e => exists w', sequential ms x w = (Raise e, w')
                          /\ same_but_lists w w'
  end.
Proof.
  induction ms as [|m ms IH]; intros x w; simpl.
  - exists x, w. split; reflexivity.
  - pose proof (call_module_outcome m x w) as Hm.
    destruct (m_forward m (map (w_data w) (m_params m)) (t_val x)) as [v|e]; simpl.
    + destruct Hm as (y & w1 & Ey & Hv).
      pose proof (call_module_spec _ _ _ _ _ Ey) as (S1 & _).
      specialize (IH y w1).
      assert (Hd : w_data w1 = w_data w) by apply S1.
      rewrite Hd, Hv in IH.
      destruct (forward_through (w_data w) ms v) as [v'|e].
      * destruct IH as (y' & w' & E' & Hv').
        exists y', w'. split; [|exact Hv'].
        now rewrite (bind_run _ _ _ _ _ Ey).
      * destruct IH as (w' & E' & S2).
        exists w'. split; [now rewrite (bind_run _ _ _ _ _ Ey)|].
        eapply same_but_lists_trans; eassumption.
    + exists w. split; [now rewrite (bind_raise _ _ _ _ _ Hm)|].
      apply same_but_lists_refl.
Qed.

(** A forward pass of the model returns exactly when the modules, applied
    in turn, all return; when it raises, the world differs from the one
    the pass started in by the log and the lists at most. *)
Lemma call_model_outcome model x w :
  match forward_through (w_data w) (modules model) (t_val x) with
  | Ok v => exists y w', call_model model x w = (Ok y, w') /\ t_val y = v
  | Raise e => exists w', call_model model x w = (Raise e, w')
                          /\ same_but_lists
                               (add_log w (EvForward (model_id model))) w'
  end.
Proof.
  unfold call_model, modules.
  rewrite forward_through_app.
  pose proof (sequential_outcome (features model) x
                                 (add_log w (EvForward (model_id model)))) as Hs.
  simpl in Hs.
  destruct (forward_through (w_data w) (features model) (t_val x)) as [v|e]; simpl.
  - destruct Hs as (y & w1 & Ey & Hv).
    pose proof (sequential_spec _ _ _ _ _ Ey) as (S1 & _).
    pose proof (call_module_outcome (head model) y w1) as Hh.
    assert (Hd : w_data w1 = w_data w) by apply S1.
    rewrite Hd, Hv in Hh.
    destruct (m_forward (head model) (map (w_data w) (m_params (head model))) v)
      as [v'|e].
    + destruct Hh as (y' & w' & E' & Hv').
      exists y', w'. split; [|exact Hv'].
      unfold bind at 1. unfold log at 1.
      now rewrite (bind_run _ _ _ _ _ Ey).
    + exists w1. split; [|exact S1].
      unfold bind at 1. unfold log at 1.
      now rewrite (bind_run _ _ _ _ _ Ey).
  - destruct Hs as (w' & E' & S1).
    exists w'. split; [|exact S1].
    unfold bind at 1. unfold log at 1.
    now rewrite (bind_raise _ _ _ _ _ E').
Qed.

Lemma step_check_ext d d' model li ki x :
  (forall m p, In m (modules model) -> In p (m_params m) -> d p = d' p) ->
  step_check d model li ki x = step_check d' model li ki x.
Proof.
  intros H. unfold step_check, mean_activation.
  rewrite (forward_through_ext d d' (modules model) H).
  rewrite (layer_activation_ext d d' model li x H). reflexivity.
Qed.

Lemma wf_with_hook w w' mid :
  wf_hooks w -> w_next w' = S (S (w_next w)) ->
  w_hooks w' = with_hook (w_hooks w) mid (S (w_next w)) (w_next w) ->
  wf_hooks w'.
Proof.
  intros Hwf Hn Hh m h r Hin. rewrite Hh in Hin. unfold with_hook in Hin.
  rewrite Hn. destruct (Nat.eq_dec m mid) as [->|Hne].
  - rewrite upd_same in Hin. apply in_app_or in Hin.
    destruct Hin as [Hin|[Hin|[]]].
    + apply Hwf in Hin. lia.
    + inversion Hin; subst. lia.
  - rewrite upd_other in Hin by exact Hne. apply Hwf in Hin. lia.
Qed.

Lemma bind_lift {A B} (r : result A) (f : A -> M B) w :
  bind (lift r) f w = match r with
                      | Ok a => f a w
                      | Raise e => (Raise e, w)
                      end.
Proof. unfold bind, lift. now destruct r. Qed.

(** From [outputs = []] to the loss: the part returns exactly when the
    three checks pass. When the forward pass or the indexing of the output
    raises, the hook registered is still on its layer. *)
Lemma forward_loss_outcome model li ki img d w :
  wf_hooks w -> distinct_modules model -> agrees w d model ->
  match step_check d model li ki (w_data w img) with
  | Ok _ => exists r w', forward_loss model li ki img w = (Ok r, w')
  | Raise e =>
      exists w', forward_loss model li ki img w = (Raise e, w')
        /\ w_data w' = w_data w /\ wf_hooks w'
        /\ w_hooks w'
           = match py_getitem (features model) li with
             | Ok layer =>
                 with_hook (w_hooks w) (m_id layer) (S (w_next w)) (w_next w)
             | Raise _ => w_hooks w
             end
  end.
Proof.
  intros Hwf Hd Hag.
  rewrite <- (step_check_ext (w_data w) d model li ki (w_data w img) Hag).
  unfold step_check.
  destruct (py_getitem (features model) li) as [layer|e] eqn:Eget; cbn [rbind].
  2:{ unfold forward_loss.
      rewrite (bind_run new_list _ w _ _ eq_refl), bind_lift, Eget.
      eexists. split; [reflexivity|]. split; [reflexivity|].
      split; [|reflexivity].
      intros mid h r Hin. simpl in Hin. apply Hwf in Hin. simpl. lia. }
  set (w2 := set_next
               (set_hooks
                  (set_next (set_lists w (upd (w_lists w) (w_next w) []))
                            (S (w_next w)))
                  (upd (w_hooks w) (m_id layer)
                       (w_hooks w (m_id layer) ++ [(S (w_next w), w_next w)])))
               (S (S (w_next w)))).
  set (x0 := mk_Tensor (w_data w img) img (fun a => Ok a)).
  assert (Hrun : forward_loss model li ki img w
                 = bind (call_model model x0)
                        (fun _ =>
                           out0 <- list_getitem (w_next w) 0 ;;
                           act <- lift (tensor_map (fun a => index_0_k a ki) out0) ;;
                           mean <- lift (tensor_map (fun a => Ok (mean_all a)) act) ;;
                           loss <- lift (tensor_map (fun a => Ok (neg a)) mean) ;;
                           ret ((m_id layer, S (w_next w)), w_next w, loss)) w2).
  { unfold forward_loss.
    rewrite (bind_run new_list _ w _ _ eq_refl), bind_lift, Eget.
    reflexivity. }
  rewrite Hrun. clear Hrun.
  pose proof (call_model_outcome model x0 w2) as Hcall.
  change (w_data w2) with (w_data w) in Hcall.
  change (t_val x0) with (w_data w img) in Hcall.
  destruct (forward_through (w_data w) (modules model) (w_data w img))
    as [v|e]; cbn [rbind].
  - destruct Hcall as (y & w3 & Ecall & _).
    rewrite (bind_run _ _ _ _ _ Ecall).
    destruct (py_getitem_Ok _ _ _ Eget) as (Hvalid & pre & post & Hf & Hlen).
    eapply call_model_hooked with (r := w_next w) in Ecall;
      [ | exact Hf | exact Hd | | ].
    + destruct Ecall as (out & Hl & Hfw & _ & _ & Hdata & _ & Hhooks & Hnext & _).
      subst w2 x0. simpl in Hl, Hfw, Hdata, Hhooks, Hnext.
      rewrite upd_same in Hl. simpl in Hl.
      assert (Eout : list_getitem (w_next w) 0 w3 = (Ok out, w3))
        by (unfold list_getitem; now rewrite Hl).
      rewrite (bind_run _ _ _ _ _ Eout), bind_lift.
      unfold mean_activation, layer_activation.
      rewrite <- Hlen, Hf, firstn_position, Hfw. cbn [rbind].
      destruct (index_0_k (t_val out) ki) as [a|e] eqn:Eidx; cbn [rbind].
      * assert (Et : exists act, tensor_map (fun a => index_0_k a ki) out = Ok act)
          by (unfold tensor_map; rewrite Eidx; eexists; reflexivity).
        destruct Et as (act & ->).
        eexists. eexists. reflexivity.
      * assert (Et : tensor_map (fun a => index_0_k a ki) out = Raise e)
          by (unfold tensor_map; now rewrite Eidx).
        rewrite Et.
        exists w3. split; [reflexivity|]. split; [exact Hdata|].
        split; [|exact Hhooks].
        eapply (wf_with_hook w w3 (m_id layer));
          [exact Hwf | exact Hnext | exact Hhooks].
    + subst w2. simpl. intros m Hm Hne. rewrite upd_other by exact Hne.
      now apply fresh_not_hooked.
    + subst w2. simpl. rewrite upd_same, map_app. simpl. rewrite count_occ_snoc.
      destruct (Nat.eq_dec (w_next w) (w_next w)); [|contradiction].
      assert (Hc : count_occ Nat.eq_dec (map snd (w_hooks w (m_id layer))) (w_next w) = 0)
        by (apply count_occ_not_In; now apply fresh_not_hooked).
      rewrite Hc. reflexivity.
  - destruct Hcall as (w3 & Ecall & S3).
    rewrite (bind_raise _ _ _ _ _ Ecall).
    destruct S3 as (d3 & g3 & h3 & n3 & l3). subst w2. simpl in d3, h3, n3.
    exists w3. split; [reflexivity|]. split; [exact d3|].
    split; [|exact h3].
    eapply (wf_with_hook w w3 (m_id layer)); [exact Hwf | exact n3 | exact h3].
Qed.

Lemma step_returns o : forall w,
  exists o' w', step adam_rule o w = (Ok o', w').
Proof.
  intros w. unfold step.
  rewrite (bind_run (log EvStep) _ w _ _ eq_refl).
  assert (Hall : forall ps st w0,
             exists st' w', for_each ps (step_param adam_rule o) st w0 = (Ok st', w')).
  { induction ps as [|p ps IH]; intros st w0; simpl.
    - eexists. eexists. reflexivity.
    - unfold bind at 1, step_param at 1.
      destruct (w_grad w0 p); apply IH. }
  destruct (Hall (params o) (state o) (add_log w EvStep)) as (st' & w' & E).
  rewrite (bind_run _ _ _ _ _ E). eexists. eexists. reflexivity.
Qed.

(** One optimisation step returns exactly when its three checks pass;
    when it raises after the hook was registered, the hook stays. *)
Lemma optimisation_step_outcome model li ki img i opt d w :
  wf_hooks w -> distinct_modules model -> agrees w d model ->
  match step_check d model li ki (w_data w img) with
  | Ok _ =>
      exists opt' w',
        optimisation_step autograd adam_rule model li ki img i opt w = (Ok opt', w')
  | Raise e =>
      exists w',
        optimisation_step autograd adam_rule model li ki img i opt w = (Raise e, w')
        /\ w_data w' = w_data w /\ wf_hooks w'
        /\ w_hooks w'
           = match py_getitem (features model) li with
             | Ok layer =>
                 with_hook (w_hooks w) (m_id layer) (S (w_next w)) (w_next w)
             | Raise _ => w_hooks w
             end
  end.
Proof.
  intros Hwf Hd Hag.
  unfold optimisation_step.
  rewrite (bind_run (zero_grad opt) _ w _ _ eq_refl).
  match goal with |- context [bind (forward_loss model li ki img) _ ?w1] =>
    pose proof (forward_loss_outcome model li ki img d w1 Hwf Hd Hag) as Hfl;
    set (w0 := w1) in *
  end.
  change (w_data w0 img) with (w_data w img) in Hfl.
  destruct (step_check d model li ki (w_data w img)) as [u|e].
  - destruct Hfl as ([[hook outputs] loss] & w2 & Efl).
    rewrite (bind_run _ _ _ _ _ Efl).
    apply forward_loss_frame in Efl.
    destruct Efl as (layer & _ & _ & _ & Hshape & _).
    assert (Eb : exists w3, backward autograd loss w2 = (Ok tt, w3))
      by (unfold backward; rewrite Hshape; eexists; reflexivity).
    destruct Eb as (w3 & Eb). rewrite (bind_run _ _ _ _ _ Eb).
    destruct (step_returns opt w3) as (o' & w4 & Es).
    rewrite (bind_run _ _ _ _ _ Es).
    eexists. eexists. reflexivity.
  - destruct Hfl as (w2 & Efl & Hdata & Hwf2 & Hhooks).
    rewrite (bind_raise _ _ _ _ _ Efl).
    exists w2. split; [reflexivity|]. split; [exact Hdata|].
    split; [exact Hwf2 | exact Hhooks].
Qed.

(** The inner loop returns exactly when every step's checks pass. *)
Lemma inner_loop_outcome model li ki img d l : forall opt w,
  wf_hooks w -> distinct_modules model -> img_fresh model img ->
  params opt = [img] -> agrees w d model ->
  match checked_steps autograd adam_rule (lr opt) (weight_decay opt) d model
                      li ki (length l) (w_data w img, state opt img) with
  | Ok s =>
      exists opt' w',
        for_each l (optimisation_step autograd adam_rule model li ki img) opt w
        = (Ok opt', w')
        /\ w_data w' img = fst s
  | Raise e =>
      fst (for_each l (optimisation_step autograd adam_rule model li ki img) opt w)
      = Raise e
  end.
Proof.
  induction l as [|i l IH]; intros opt w Hwf Hd Hfresh Hp Hag.
  - simpl. eexists. eexists. split; reflexivity.
  - cbn [length checked_steps for_each fst].
    pose proof (optimisation_step_outcome model li ki img i opt d w Hwf Hd Hag)
      as Hstep.
    destruct (step_check d model li ki (w_data w img)) as [u|e]; cbn [rbind].
    + destruct Hstep as (opt1 & w1 & Estep).
      rewrite (bind_run _ _ _ _ _ Estep).
      pose proof (optimisation_step_spec autograd adam_rule model li ki img i
                    opt w opt1 w1 Hwf Hd Hp Estep)
        as (_ & Hd1 & _ & Hopt1 & Hh1 & Hn1 & _).
      assert (Hloss : loss_function (w_data w) model li ki
                      = loss_function d model li ki)
        by (apply loss_function_ext; exact Hag).
      rewrite Hloss in Hd1, Hopt1.
      assert (Hs1 : (w_data w1 img, state opt1 img)
                    = ascent_step autograd adam_rule (lr opt) (weight_decay opt)
                                  d model li ki (w_data w img, state opt img)).
      { subst opt1. rewrite Hd1. cbn [state]. rewrite !upd_same.
        unfold ascent_step. cbn [fst snd]. now rewrite <- surjective_pairing. }
      rewrite <- Hs1.
      assert (Hlr : lr opt1 = lr opt /\ weight_decay opt1 = weight_decay opt)
        by (subst opt1; split; reflexivity).
      destruct Hlr as [Hlr Hwd]. rewrite <- Hlr, <- Hwd.
      apply IH.
      * eapply wf_hooks_step; [exact Hwf | exact Hh1 | lia].
      * exact Hd.
      * exact Hfresh.
      * now subst opt1.
      * intros m p Hm Hin. rewrite Hd1.
        rewrite upd_other by (eapply Hfresh; eassumption).
        exact (Hag m p Hm Hin).
    + destruct Hstep as (w1 & Estep & _).
      now rewrite (bind_raise _ _ _ _ _ Estep).
Qed.

(** One round of the outer loop returns exactly when its resize and its
    steps do. *)
Lemma upscaling_step_outcome model li ki n imsize uf j img d w :
  wf_hooks w -> wf_model w model -> distinct_modules model -> agrees w d model ->
  match checked_stage resize autograd adam_rule d model li ki n imsize uf j
                      (w_data w img) with
  | Ok x =>
      exists img' w',
        upscaling_step resize autograd adam_rule model li ki n imsize uf j img w
        = (Ok img', w')
        /\ w_data w' img' = x
  | Raise e =>
      fst (upscaling_step resize autograd adam_rule model li ki n imsize uf j img w)
      = Raise e
  end.
Proof.
  intros Hwf Hwm Hd Hag.
  unfold checked_stage, upscale, upscaling_step.
  rewrite (bind_run (numpy img) _ w _ _ eq_refl), bind_lift.
  destruct (transpose_120 (squeeze (w_data w img))) as [a1|e]; cbn [rbind];
    [|reflexivity].
  rewrite (bind_run (log _) _ w _ _ eq_refl), bind_lift.
  destruct (resize a1 (new_size uf j imsize) (new_size uf j imsize)) as [a2|e];
    cbn [rbind]; [|reflexivity].
  rewrite bind_lift.
  destruct (transpose_201 a2) as [a3|e]; cbn [rbind]; [|reflexivity].
  rewrite (bind_run (new_leaf (unsqueeze0 a3)) _ _ _ _ eq_refl).
  match goal with |- context [bind (for_each _ _ ?o) _ ?w2] =>
    pose proof (inner_loop_outcome model li ki (w_next w) d (range n) o w2) as Hloop
  end.
  unfold range in Hloop at 1. rewrite length_seq in Hloop.
  cbn [lr weight_decay state Adam w_data set_next set_grad set_data add_log] in Hloop.
  rewrite upd_same in Hloop.
  match type of Hloop with ?A -> ?B -> ?C -> ?D -> ?E -> _ =>
    assert (H1 : A); [|assert (H3 : C); [|assert (H5 : E)]]
  end.
  - intros mid h r Hin. simpl in Hin. apply Hwf in Hin. simpl. lia.
  - intros m p Hm Hp. apply (Hwm m p Hm) in Hp. lia.
  - intros m p Hm Hp. simpl.
    rewrite upd_other by (apply (Hwm m p Hm) in Hp; lia).
    exact (Hag m p Hm Hp).
  - specialize (Hloop H1 Hd H3 eq_refl H5).
    match type of Hloop with
    | match ?c with Ok _ => _ | Raise _ => _ end =>
        change (checked_steps autograd adam_rule (1 / 10) (1 / 1000000) d model
                              li ki n (unsqueeze0 a3, adam_initial)) with c;
        destruct c as [s|e]
    end; cbn [rbind].
    + destruct Hloop as (opt' & w' & Eloop & Hx).
      match goal with |- context [bind ?m _ ?w2] =>
        assert (El2 : m w2 = (Ok opt', w')) by exact Eloop
      end.
      rewrite (bind_run _ _ _ _ _ El2).
      eexists. eexists. split; [reflexivity | exact Hx].
    + match goal with |- context [bind ?m _ ?w2] =>
        assert (Hl2 : fst (m w2) = Raise e) by exact Hloop;
        destruct (m w2) as [[o|e'] w'] eqn:E
      end.
      * discriminate.
      * rewrite (bind_raise _ _ _ _ _ E). simpl in Hl2 |- *. now inversion Hl2.
Qed.

Lemma outer_loop_outcome model li ki n imsize uf d js : forall img w,
  wf_hooks w -> wf_model w model -> distinct_modules model -> agrees w d model ->
  img < w_next w ->
  match checked_stages resize autograd adam_rule d model li ki n imsize uf js
                       (w_data w img) with
  | Ok x =>
      exists img' w',
        for_each js (upscaling_step resize autograd adam_rule model li ki n imsize uf)
                 img w = (Ok img', w')
        /\ w_data w' img' = x
  | Raise e =>
      fst (for_each js (upscaling_step resize autograd adam_rule model li ki n imsize uf)
                    img w) = Raise e
  end.
Proof.
  induction js as [|j js IH]; intros img w Hwf Hwm Hd Hag Himg.
  - simpl. eexists. eexists. split; reflexivity.
  - cbn [checked_stages for_each].
    pose proof (upscaling_step_outcome model li ki n imsize uf j img d w
                  Hwf Hwm Hd Hag) as Hstep.
    destruct (checked_stage resize autograd adam_rule d model li ki n imsize uf j
                            (w_data w img)) as [x1|e]; cbn [rbind].
    + destruct Hstep as (img1 & w1 & Estep & Hx1).
      rewrite (bind_run _ _ _ _ _ Estep).
      pose proof (upscaling_step_spec resize autograd adam_rule model li ki n
                    imsize uf j img d w img1 w1 Hwf Hwm Hd Hag Estep)
        as (_ & Himg1 & Hfr1 & Hh1 & Hn1 & _).
      rewrite <- Hx1. apply IH.
      * eapply wf_hooks_step; [exact Hwf | exact Hh1 | lia].
      * intros m p Hm Hp. apply (Hwm m p Hm) in Hp. lia.
      * exact Hd.
      * intros m p Hm Hp. rewrite Hfr1 by (apply (Hwm m p Hm) in Hp; lia).
        exact (Hag m p Hm Hp).
      * lia.
    + match goal with |- context [bind ?m _ ?w2] =>
        destruct (m w2) as [[o|e'] w'] eqn:E
      end.
      * discriminate.
      * rewrite (bind_raise _ _ _ _ _ E). simpl in Hstep |- *. now inversion Hstep.
Qed.

End Outcomes.

Lemma create_feature_maximizer_total
      resize autograd adam_rule rng model self li ki n b imsize us uf d w :
  wf_hooks w -> wf_model w model -> distinct_modules model -> agrees w d model ->
  fst (create_feature_maximizer resize autograd adam_rule rng
                                model self li ki n b imsize us uf w)
  = maximizer_outcome resize autograd adam_rule rng d model li ki n imsize us uf.
Proof.
  intros Hwf Hwm Hd Hag.
  unfold create_feature_maximizer, maximizer_outcome.
  rewrite (bind_run (new_leaf _) _ w _ _ eq_refl).
  match goal with |- context [bind (for_each ?js ?body ?i) _ ?w1] =>
    pose proof (outer_loop_outcome resize autograd adam_rule model li ki n imsize uf
                  d js i w1) as Hloop
  end.
  cbn [w_data set_next set_grad set_data] in Hloop. rewrite upd_same in Hloop.
  match type of Hloop with ?A -> ?B -> ?C -> ?D -> ?E -> _ =>
    assert (H1 : A); [|assert (H2 : B); [|assert (H4 : D); [|assert (H5 : E)]]]
  end.
  - intros mid h r Hin. simpl in Hin. apply Hwf in Hin. simpl. lia.
  - intros m p Hm Hp. apply (Hwm m p Hm) in Hp. simpl. lia.
  - intros m p Hm Hp. simpl. rewrite upd_other.
    + exact (Hag m p Hm Hp).
    + apply (Hwm m p Hm) in Hp. lia.
  - simpl. lia.
  - specialize (Hloop H1 H2 Hd H4 H5).
    match type of Hloop with
    | match ?c with Ok _ => _ | Raise _ => _ end => destruct c as [x|e]
    end; cbn [rbind].
    + destruct Hloop as (img' & w' & Eloop & Hx).
      match goal with |- context [bind ?m _ ?w2] =>
        assert (El2 : m w2 = (Ok img', w')) by exact Eloop
      end.
      rewrite (bind_run _ _ _ _ _ El2).
      rewrite (bind_run (numpy img') _ w' _ _ eq_refl).
      unfold lift. cbn [fst]. now rewrite Hx.
    + match goal with |- context [bind ?m _ ?w2] =>
        assert (Hl2 : fst (m w2) = Raise e) by exact Hloop;
        destruct (m w2) as [[o|e'] w'] eqn:E
      end.
      * discriminate.
      * rewrite (bind_raise _ _ _ _ _ E). simpl in Hl2 |- *. now inversion Hl2.
Qed.

Section MeanOutcome.

Variable PILImage : Type.
Variable Image_open : String.string -> result PILImage.
Variable Resize : nat -> PILImage -> result PILImage.
Variable ToTensor : PILImage -> result ndarray.

(** The world once [get_mean_layer_activations] has made its list and
    loaded the image [t]. *)
Lemma image_loader_outcome imsize path w :
  image_loader PILImage Image_open Resize ToTensor imsize path w
  = match rbind (Image_open path) (loader PILImage Resize ToTensor imsize) with
    | Ok t =>
        (Ok (mk_Tensor (unsqueeze0 t) (w_next w) (fun a => Ok (unsqueeze0 a))),
         set_next (set_grad (set_data w (upd (w_data w) (w_next w) t))
                            (upd (w_grad w) (w_next w) None))
                  (S (w_next w)))
    | Raise e => (Raise e, w)
    end.
Proof.
  unfold image_loader. rewrite bind_lift.
  destruct (Image_open path) as [image|e]; cbn [rbind]; [|reflexivity].
  rewrite bind_lift.
  destruct (loader PILImage Resize ToTensor imsize image) as [t|e]; [|reflexivity].
  rewrite (bind_run (new_leaf t) _ w _ _ eq_refl).
  match goal with |- bind (leaf ?i) _ ?w1 = _ =>
    rewrite (bind_run (leaf i) _ w1 _ _ eq_refl)
  end.
  unfold lift, tensor_map. cbn. rewrite upd_same. reflexivity.
Qed.

Lemma get_mean_layer_activations_run self path li imsize d w :
  wf_hooks w -> wf_model w (self_model self) ->
  distinct_modules (self_model self) -> agrees w d (self_model self) ->
  exists w',
    get_mean_layer_activations PILImage Image_open Resize ToTensor
                               self path li imsize w
    = (mean_layer_activations_outcome PILImage Image_open Resize ToTensor
                                      d (self_model self) path li imsize, w')
    /\ (forall p, p < w_next w -> w_data w' p = w_data w p)
    /\ w_next w <= w_next w'
    /\ wf_hooks w'
    /\ forall mid,
         w_hooks w' mid
         = match rbind (Image_open path) (loader PILImage Resize ToTensor imsize),
                 py_getitem (features (self_model self)) li with
           | Ok t, Ok layer =>
               match forward_through d (modules (self_model self)) (unsqueeze0 t) with
               | Ok _ => w_hooks w mid
               | Raise _ =>
                   with_hook (w_hooks w) (m_id layer) (S (S (w_next w))) (w_next w) mid
               end
           | _, _ => w_hooks w mid
           end.
Proof.
  intros Hwf Hwm Hd Hag.
  unfold get_mean_layer_activations, mean_layer_activations_outcome.
  rewrite (bind_run new_list _ w _ _ eq_refl).
  match goal with |- context [bind (image_loader _ _ _ _ _ _) _ ?w1] =>
    pose proof (image_loader_outcome imsize path w1) as Himg
  end.
  destruct (Image_open path) as [image|e]; cbn [rbind] in Himg |- *.
  2:{ rewrite (bind_raise _ _ _ _ _ Himg).
      eexists. split; [reflexivity|]. split; [|split; [|split; [|reflexivity]]].
      - intros p Hp. reflexivity.
      - simpl. lia.
      - intros mid h r Hin. simpl in Hin. apply Hwf in Hin. simpl. lia. }
  destruct (loader PILImage Resize ToTensor imsize image) as [t|e];
    cbn [rbind] in Himg |- *.
  2:{ rewrite (bind_raise _ _ _ _ _ Himg).
      eexists. split; [reflexivity|]. split; [|split; [|split; [|reflexivity]]].
      - intros p Hp. reflexivity.
      - simpl. lia.
      - intros mid h r Hin. simpl in Hin. apply Hwf in Hin. simpl. lia. }
  rewrite (bind_run _ _ _ _ _ Himg). clear Himg. rewrite bind_lift.
  cbn [w_next set_next set_lists set_grad set_data w_data w_grad w_hooks w_lists w_log].
  destruct (py_getitem (features (self_model self)) li) as [layer|e] eqn:Eget;
    cbn [rbind].
  2:{ eexists. split; [reflexivity|]. split; [|split; [|split; [|reflexivity]]].
      - intros p Hp. simpl. apply upd_other. lia.
      - simpl. lia.
      - intros mid h r Hin. simpl in Hin. apply Hwf in Hin. simpl. lia. }
  match goal with |- context [bind (register_forward_hook ?l ?o) _ ?w1] =>
    rewrite (bind_run (register_forward_hook l o) _ w1 _ _ eq_refl)
  end.
  cbn [w_next set_next set_lists set_grad set_data set_hooks
       w_data w_grad w_hooks w_lists w_log].
  match goal with |- context [bind (call_model ?m ?x) _ ?w1] =>
    set (x0 := x); set (w3 := w1);
    pose proof (call_model_outcome m x0 w3) as Hcall
  end.
  assert (Hfw3 : forward_through (w_data w3) (modules (self_model self)) (t_val x0)
                 = forward_through d (modules (self_model self)) (unsqueeze0 t)).
  { apply forward_through_ext. intros m p Hm Hp. subst w3. simpl.
    rewrite upd_other by (apply (Hwm m p Hm) in Hp; lia).
    exact (Hag m p Hm Hp). }
  rewrite Hfw3 in Hcall.
  destruct (forward_through d (modules (self_model self)) (unsqueeze0 t))
    as [v|e]; cbn [rbind].
  - destruct Hcall as (y & w4 & Ecall & _).
    rewrite (bind_run _ _ _ _ _ Ecall).
    destruct (py_getitem_Ok _ _ _ Eget) as (Hvalid & pre & post & Hf & Hlen).
    eapply call_model_hooked with (r := w_next w) in Ecall;
      [ | exact Hf | exact Hd | | ].
    + destruct Ecall as (out & Hl & Hfw & _ & _ & Hdata & _ & Hhooks & Hnext & _).
      subst w3 x0. simpl in Hl, Hfw, Hdata, Hhooks, Hnext.
      rewrite upd_same in Hl. simpl in Hl.
      match goal with |- context [bind (remove ?h) _ ?w1] =>
        rewrite (bind_run (remove h) _ w1 _ _ eq_refl)
      end.
      match goal with |- context [bind (list_getitem ?l ?i) _ ?w1] =>
        assert (Eout : list_getitem l i w1 = (Ok out, w1))
          by (unfold list_getitem; simpl; now rewrite Hl)
      end.
      rewrite (bind_run _ _ _ _ _ Eout). unfold lift.
      assert (Hact : layer_activation d (self_model self) li (unsqueeze0 t)
                     = Ok (t_val out)).
      { rewrite <- Hfw. unfold layer_activation.
        rewrite <- Hlen, Hf, firstn_position.
        apply forward_through_ext. intros m p Hm Hp. symmetry.
        rewrite upd_other.
        - apply (Hag m p); [|exact Hp].
          unfold modules. rewrite Hf. apply in_or_app. left.
          apply in_app_or in Hm. apply in_or_app.
          destruct Hm as [Hm|[<-|[]]]; [now left | right; now left].
        - assert (p < w_next w); [|lia].
          apply (Hwm m p); [|exact Hp].
          unfold modules. rewrite Hf. apply in_or_app. left.
          apply in_app_or in Hm. apply in_or_app.
          destruct Hm as [Hm|[<-|[]]]; [now left | right; now left]. }
      rewrite Hact. cbn [rbind].
      assert (Hsame : forall mid,
                 upd (w_hooks w4) (m_id layer)
                     (filter (fun h => negb (Nat.eqb (fst h) (S (S (w_next w)))))
                             (w_hooks w4 (m_id layer))) mid
                 = w_hooks w mid).
      { intros mid. rewrite Hhooks.
        destruct (Nat.eq_dec mid (m_id layer)) as [->|Hne].
        - rewrite !upd_same. rewrite filter_app. simpl.
          rewrite Nat.eqb_refl. simpl. rewrite app_nil_r.
          apply filter_keeps_old. intros h r Hin. apply Hwf in Hin. lia.
        - now rewrite !upd_other by exact Hne. }
      eexists. split; [reflexivity|]. split; [|split; [|split]].
      * intros p Hp. simpl. rewrite Hdata. apply upd_other. lia.
      * simpl. lia.
      * intros mid h r Hin. simpl in Hin. rewrite Hsame in Hin.
        apply Hwf in Hin. simpl. lia.
      * intros mid. simpl. apply Hsame.
    + subst w3. simpl. intros m Hm Hne. rewrite upd_other by exact Hne.
      now apply fresh_not_hooked.
    + subst w3. simpl. rewrite upd_same, map_app. simpl. rewrite count_occ_snoc.
      destruct (Nat.eq_dec (w_next w) (w_next w)); [|contradiction].
      assert (Hc : count_occ Nat.eq_dec (map snd (w_hooks w (m_id layer))) (w_next w) = 0)
        by (apply count_occ_not_In; now apply fresh_not_hooked).
      rewrite Hc. reflexivity.
  - destruct Hcall as (w4 & Ecall & S4).
    rewrite (bind_raise _ _ _ _ _ Ecall).
    destruct S4 as (d4 & g4 & h4 & n4 & l4). subst w3. simpl in d4, h4, n4.
    exists w4. split; [reflexivity|]. split; [|split; [|split]].
    + intros p Hp. rewrite d4. apply upd_other. lia.
    + lia.
    + intros mid h r Hin. rewrite h4 in Hin. rewrite n4.
      unfold upd in Hin. destruct (Nat.eqb mid (m_id layer)).
      * apply in_app_or in Hin. destruct Hin as [Hin|[Hin|[]]].
        -- apply Hwf in Hin. lia.
        -- inversion Hin. lia.
      * apply Hwf in Hin. lia.
    + intros mid. rewrite h4. reflexivity.
Qed.
End MeanOutcome.

(* ================================================================= *)
(** ** Outcomes, failures and edge cases of the two methods *)

Lemma small_wf_broken : wf_model Small.world Small.broken.
Proof.
  intros md p Hm Hp. simpl in Hm.
  destruct Hm as [<-|[<-|[<-|[]]]]; simpl in Hp; destruct Hp.
Qed.

Lemma small_distinct_broken : distinct_modules Small.broken.
Proof.
  unfold distinct_modules. simpl.
  repeat constructor; simpl; intuition lia.
Qed.



(** X2. The outcome of [get_mean_layer_activations], the vector of means or
    the exception raised, is [mean_layer_activations_outcome]: the image is
    opened and transformed, the layer is looked up, the whole model is run,
    and the means are taken of the squeezed output of the layer. *)
Theorem get_mean_layer_activations_outcome
        PILImage Image_open Resize ToTensor self path li imsize d w :
  wf_hooks w -> wf_model w (self_model self) ->
  distinct_modules (self_model self) -> agrees w d (self_model self) ->
  fst (get_mean_layer_activations PILImage Image_open Resize ToTensor
                                  self path li imsize w)
  = mean_layer_activations_outcome PILImage Image_open Resize ToTensor
                                   d (self_model self) path li imsize.
Proof.
  intros Hwf Hwm Hd Hag.
  destruct (get_mean_layer_activations_run PILImage Image_open Resize ToTensor
              self path li imsize d w Hwf Hwm Hd Hag) as (w' & E & _).
  now rewrite E.
Qed.

Lemma get_mean_layer_activations_outcome_witness :
  fst (get_mean_layer_activations Small.PILImage Small.Image_open Small.Resize
         Small.ToTensor (FeatureVisualizer_init Small.model)
         Files.cat_jpg 1 2 Small.world)
  = mean_layer_activations_outcome Small.PILImage Small.Image_open Small.Resize
      Small.ToTensor (w_data Small.world) Small.model Files.cat_jpg 1 2.
Proof.
  apply (get_mean_layer_activations_outcome
           Small.PILImage Small.Image_open Small.Resize Small.ToTensor
           (FeatureVisualizer_init Small.model)).
  - exact small_wf_hooks.
  - exact small_wf_model.
  - exact small_distinct.
  - intros m p _ _. reflexivity.
Defined.

(** X3. [get_mean_layer_activations] changes no tensor that was there before,
    and it leaves the hooks as they were in every case but one: when the
    forward pass of the model raises, the hook it registered stays on the
    layer, since [hook.remove()] is not reached. *)
Theorem mean_layer_activations_hooks
        PILImage Image_open Resize ToTensor self path li imsize w r w' :
  wf_hooks w -> wf_model w (self_model self) ->
  distinct_modules (self_model self) ->
  get_mean_layer_activations PILImage Image_open Resize ToTensor
                             self path li imsize w = (r, w') ->
  (forall p, p < w_next w -> w_data w' p = w_data w p)
  /\ forall mid,
       w_hooks w' mid
       = match rbind (Image_open path) (loader PILImage Resize ToTensor imsize),
               py_getitem (features (self_model self)) li with
         | Ok t, Ok layer =>
             match forward_through (w_data w) (modules (self_model self))
                                   (unsqueeze0 t) with
             | Ok _ => w_hooks w mid
             | Raise _ =>
                 with_hook (w_hooks w) (m_id layer) (S (S (w_next w))) (w_next w) mid
             end
         | _, _ => w_hooks w mid
         end.
Proof.
  intros Hwf Hwm Hd Hrun.
  destruct (get_mean_layer_activations_run PILImage Image_open Resize ToTensor
              self path li imsize (w_data w) w Hwf Hwm Hd)
    as (w1 & E & Hdata & _ & _ & Hhooks).
  - intros m p _ _. reflexivity.
  - rewrite Hrun in E. inversion E; subst w1. split; assumption.
Qed.

Lemma mean_layer_activations_hooks_witness :
  exists w',
    get_mean_layer_activations Small.PILImage Small.Image_open Small.Resize
      Small.ToTensor (FeatureVisualizer_init Small.broken)
      Files.cat_jpg 0 2 Small.world = (Raise (LibraryError 0), w')
    /\ w_hooks w' 30 = [(3, 1)]
    /\ w_hooks Small.world 30 = [].
Proof.
  pose (run := get_mean_layer_activations Small.PILImage Small.Image_open
                 Small.Resize Small.ToTensor (FeatureVisualizer_init Small.broken)
                 Files.cat_jpg 0 2 Small.world).
  assert (Er : fst run = Raise (LibraryError 0)) by (vm_compute; reflexivity).
  exists (snd run). split; [|split; [|reflexivity]].
  - fold run. rewrite <- Er. apply surjective_pairing.
  - destruct (mean_layer_activations_hooks
                Small.PILImage Small.Image_open Small.Resize Small.ToTensor
                (FeatureVisualizer_init Small.broken) Files.cat_jpg 0 2
                Small.world (fst run) (snd run)
                small_wf_hooks small_wf_broken small_distinct_broken
                (surjective_pairing run)) as (_ & Hh).
    rewrite (Hh 30). reflexivity.
Defined.


Section Failures.

Variable resize : ndarray -> Z -> Z -> result ndarray.
Variable autograd : (ndarray -> R) -> ndarray -> ndarray.
Variable adam_rule : R -> R -> nat -> R -> R -> R -> R -> R * R * R.
Variable rng : list nat -> Z.

Lemma bind_fails {A B} (m : M A) (f : A -> M B) w e w' :
  bind m f w = (Raise e, w') ->
  m w = (Raise e, w')
  \/ exists a w1, m w = (Ok a, w1) /\ f a w1 = (Raise e, w').
Proof.
  unfold bind. destruct (m w) as [[a|e0] w1]; intros H.
  - right. now exists a, w1.
  - left. now inversion H.
Qed.

Lemma lift_fails {A} (r : result A) w e w' :
  lift r w = (Raise e, w') -> r = Raise e /\ w' = w.
Proof. unfold lift. intros H. now inversion H. Qed.

Lemma with_hook_ext h1 h2 m h l :
  (forall mid, h1 mid = h2 mid) ->
  forall mid, with_hook h1 m h l mid = with_hook h2 m h l mid.
Proof.
  intros H mid. unfold with_hook, upd.
  destruct (Nat.eqb mid m); now rewrite ?H.
Qed.

Lemma hook_left_from w w1 w' model li :
  w_next w <= w_next w1 -> (forall mid, w_hooks w1 mid = w_hooks w mid) ->
  hook_left w1 w' model li -> hook_left w w' model li.
Proof.
  intros Hn Hh (layer & h & l & Eget & Hl & Hlh & Hhooks).
  exists layer, h, l. split; [exact Eget|]. split; [lia|]. split; [exact Hlh|].
  intros mid. rewrite Hhooks. now apply with_hook_ext.
Qed.

Lemma optimisation_step_failure model li ki img i opt w e w' :
  wf_hooks w -> distinct_modules model ->
  optimisation_step autograd adam_rule model li ki img i opt w = (Raise e, w') ->
  w_data w' = w_data w
  /\ ((forall mid, w_hooks w' mid = w_hooks w mid) \/ hook_left w w' model li).
Proof.
  intros Hwf Hd Hrun.
  pose proof (optimisation_step_outcome autograd adam_rule model li ki img i opt
                (w_data w) w Hwf Hd (fun m p _ _ => eq_refl)) as H.
  destruct (step_check (w_data w) model li ki (w_data w img)) as [u|e0].
  - destruct H as (opt' & w1 & E). rewrite Hrun in E. discriminate.
  - destruct H as (w1 & E & Hdata & _ & Hhooks).
    rewrite Hrun in E. inversion E; subst e0 w1.
    split; [exact Hdata|].
    destruct (py_getitem (features model) li) as [layer|e1] eqn:Eget.
    + right. exists layer, (S (w_next w)), (w_next w).
      split; [exact Eget|]. split; [lia|]. split; [lia|].
      intros mid. now rewrite Hhooks.
    + left. intros mid. now rewrite Hhooks.
Qed.

Lemma inner_loop_failure model li ki img l : forall opt w e w',
  wf_hooks w -> distinct_modules model -> params opt = [img] ->
  for_each l (optimisation_step autograd adam_rule model li ki img) opt w
  = (Raise e, w') ->
  (forall p, p <> img -> w_data w' p = w_data w p)
  /\ ((forall mid, w_hooks w' mid = w_hooks w mid) \/ hook_left w w' model li).
Proof.
  induction l as [|i l IH]; intros opt w e w' Hwf Hd Hp Hrun.
  - discriminate.
  - cbn [for_each] in Hrun. apply bind_fails in Hrun.
    destruct Hrun as [Hrun|(opt1 & w1 & Estep & Hrun)].
    + destruct (optimisation_step_failure model li ki img i opt w e w' Hwf Hd Hrun)
        as (Hdata & Hh).
      split; [|exact Hh]. intros p _. now rewrite Hdata.
    + pose proof (optimisation_step_spec autograd adam_rule model li ki img i opt
                    w opt1 w1 Hwf Hd Hp Estep)
        as (_ & Hdata1 & _ & Hopt1 & Hh1 & Hn1 & _).
      destruct (IH opt1 w1 e w') as (Hdata & Hh).
      * eapply wf_hooks_step; [exact Hwf | exact Hh1 | lia].
      * exact Hd.
      * now rewrite Hopt1.
      * exact Hrun.
      * split.
        -- intros p Hne. rewrite (Hdata p Hne), Hdata1. now apply upd_other.
        -- destruct Hh as [Hh|Hh].
           ++ left. intros mid. now rewrite Hh.
           ++ right. apply (hook_left_from w w1 w' model li); [lia | exact Hh1 | exact Hh].
Qed.

Lemma upscaling_step_failure model li ki n imsize uf j img w e w' :
  wf_hooks w -> distinct_modules model ->
  upscaling_step resize autograd adam_rule model li ki n imsize uf j img w
  = (Raise e, w') ->
  (forall p, p < w_next w -> w_data w' p = w_data w p)
  /\ ((forall mid, w_hooks w' mid = w_hooks w mid) \/ hook_left w w' model li).
Proof.
  intros Hwf Hd Hrun. unfold upscaling_step in Hrun.
  apply bind_fails in Hrun. destruct Hrun as [Hrun|(a & w1 & E & Hrun)];
    [discriminate|].
  unfold numpy in E. inversion E; subst a w1; clear E.
  apply bind_fails in Hrun. destruct Hrun as [Hrun|(a & w1 & E & Hrun)].
  { apply lift_fails in Hrun. destruct Hrun as [_ ->]. split; [|left]; reflexivity. }
  apply lift_Ok in E. destruct E as [_ ->].
  apply bind_fails in Hrun. destruct Hrun as [Hrun|(u & w1 & E & Hrun)];
    [discriminate|].
  unfold log in E. inversion E; subst u w1; clear E.
  apply bind_fails in Hrun. destruct Hrun as [Hrun|(a1 & w1 & E & Hrun)].
  { apply lift_fails in Hrun. destruct Hrun as [_ ->]. split; [|left]; reflexivity. }
  apply lift_Ok in E. destruct E as [_ ->].
  apply bind_fails in Hrun. destruct Hrun as [Hrun|(a2 & w1 & E & Hrun)].
  { apply lift_fails in Hrun. destruct Hrun as [_ ->]. split; [|left]; reflexivity. }
  apply lift_Ok in E. destruct E as [_ ->].
  apply bind_fails in Hrun. destruct Hrun as [Hrun|(img1 & w1 & E & Hrun)];
    [discriminate|].
  unfold new_leaf in E. inversion E; subst img1 w1; clear E.
  apply bind_fails in Hrun. destruct Hrun as [Hrun|(o & w1 & E & Hrun)];
    [|discriminate].
  apply inner_loop_failure in Hrun; [ | | exact Hd | reflexivity].
  - destruct Hrun as (Hdata & Hh). simpl in Hdata. split.
    + intros p Hp. rewrite Hdata by lia. apply upd_other. lia.
    + destruct Hh as [Hh|Hh].
      * left. exact Hh.
      * right. eapply hook_left_from; [ | | exact Hh]; simpl; [lia | reflexivity].
  - intros mid h r Hin. simpl in Hin. apply Hwf in Hin. simpl. lia.
Qed.

Lemma outer_loop_failure model li ki n imsize uf js : forall img w e w',
  wf_hooks w -> wf_model w model -> distinct_modules model ->
  for_each js (upscaling_step resize autograd adam_rule model li ki n imsize uf)
           img w = (Raise e, w') ->
  (forall p, p < w_next w -> w_data w' p = w_data w p)
  /\ ((forall mid, w_hooks w' mid = w_hooks w mid) \/ hook_left w w' model li).
Proof.
  induction js as [|j js IH]; intros img w e w' Hwf Hwm Hd Hrun.
  - discriminate.
  - cbn [for_each] in Hrun. apply bind_fails in Hrun.
    destruct Hrun as [Hrun|(img1 & w1 & Estep & Hrun)].
    + exact (upscaling_step_failure model li ki n imsize uf j img w e w' Hwf Hd Hrun).
    + pose proof (upscaling_step_spec resize autograd adam_rule model li ki n
                    imsize uf j img (w_data w) w img1 w1 Hwf Hwm Hd
                    (fun m p _ _ => eq_refl) Estep)
        as (_ & _ & Hdata1 & Hh1 & Hn1 & _).
      destruct (IH img1 w1 e w') as (Hdata & Hh).
      * eapply wf_hooks_step; [exact Hwf | exact Hh1 | lia].
      * intros m p Hm Hp. apply (Hwm m p Hm) in Hp. lia.
      * exact Hd.
      * exact Hrun.
      * split.
        -- intros p Hp. rewrite Hdata by lia. now apply Hdata1.
        -- destruct Hh as [Hh|Hh].
           ++ left. intros mid. now rewrite Hh.
           ++ right. apply (hook_left_from w w1 w' model li); [lia | exact Hh1 | exact Hh].
Qed.

Lemma create_feature_maximizer_failure model self li ki n b imsize us uf w e w' :
  wf_hooks w -> wf_model w model -> distinct_modules model ->
  create_feature_maximizer resize autograd adam_rule rng
                           model self li ki n b imsize us uf w = (Raise e, w') ->
  (forall p, p < w_next w -> w_data w' p = w_data w p)
  /\ ((forall mid, w_hooks w' mid = w_hooks w mid) \/ hook_left w w' model li).
Proof.
  intros Hwf Hwm Hd Hrun. unfold create_feature_maximizer in Hrun.
  apply bind_fails in Hrun. destruct Hrun as [Hrun|(img & w1 & E & Hrun)];
    [discriminate|].
  unfold new_leaf in E. inversion E; subst img w1; clear E.
  match type of Hrun with bind _ _ ?w0 = _ => set (w1 := w0) in * end.
  assert (Hwf1 : wf_hooks w1).
  { intros mid h r Hin. simpl in Hin. apply Hwf in Hin. simpl. lia. }
  assert (Hwm1 : wf_model w1 model).
  { intros m p Hm Hp. apply (Hwm m p Hm) in Hp. simpl. lia. }
  assert (Hdata1 : forall p, p < w_next w -> w_data w1 p = w_data w p).
  { intros p Hp. simpl. apply upd_other. lia. }
  assert (Hframe : forall w2,
             (forall p, p < w_next w1 -> w_data w2 p = w_data w1 p)
             /\ ((forall mid, w_hooks w2 mid = w_hooks w1 mid)
                 \/ hook_left w1 w2 model li) ->
             (forall p, p < w_next w -> w_data w2 p = w_data w p)
             /\ ((forall mid, w_hooks w2 mid = w_hooks w mid)
                 \/ hook_left w w2 model li)).
  { intros w2 (Hdata & Hh). split.
    - intros p Hp. rewrite Hdata by (simpl; lia). now apply Hdata1.
    - destruct Hh as [Hh|Hh].
      + left. exact Hh.
      + right. eapply hook_left_from; [ | | exact Hh]; simpl; [lia | reflexivity]. }
  apply bind_fails in Hrun. destruct Hrun as [Hrun|(img' & w2 & Eloop & Hrun)].
  - apply Hframe.
    exact (outer_loop_failure model li ki n imsize uf (range us) (w_next w) w1 e w'
             Hwf1 Hwm1 Hd Hrun).
  - apply bind_fails in Hrun. destruct Hrun as [Hrun|(a & w3 & E & Hrun)];
      [discriminate|].
    unfold numpy in E. inversion E; subst a w3; clear E.
    apply lift_fails in Hrun. destruct Hrun as [_ ->].
    apply Hframe.
    pose proof (outer_loop_spec resize autograd adam_rule model li ki n imsize uf
                  (w_data w1) (range us) (w_next w) w1 img' w2 Hwf1 Hwm1 Hd
                  (fun m p _ _ => eq_refl)) as Hspec.
    destruct Hspec as (_ & Hdata & Hh & _); [simpl; lia | exact Eloop |].
    split; [exact Hdata | left; exact Hh].
Qed.

End Failures.

(** X4. When [create_feature_maximizer] raises, the tensors that were there
    before, the parameters of the model among them, are unchanged, and the
    hooks are as before or one more is left on the layer: the hook of the
    optimisation step that raised, which [hook.remove()] did not reach. *)
Theorem maximizer_on_exception
        resize autograd adam_rule rng model self li ki n b imsize us uf w e w' :
  wf_hooks w -> wf_model w model -> distinct_modules model ->
  create_feature_maximizer resize autograd adam_rule rng
                           model self li ki n b imsize us uf w = (Raise e, w') ->
  (forall p, p < w_next w -> w_data w' p = w_data w p)
  /\ ((forall mid, w_hooks w' mid = w_hooks w mid) \/ hook_left w w' model li).
Proof.
  intros Hwf Hwm Hd Hrun.
  exact (create_feature_maximizer_failure resize autograd adam_rule rng
           model self li ki n b imsize us uf w e w' Hwf Hwm Hd Hrun).
Qed.

Lemma maximizer_on_exception_witness :
  exists w',
    create_feature_maximizer Small.resize Small.autograd Small.adam_rule Small.rng
      Small.model (FeatureVisualizer_init Small.model) 1 3 1 0%R 2 1 (6 # 5)
      Small.world = (Raise IndexError, w')
    /\ w_data w' 0 = w_data Small.world 0
    /\ w_hooks w' 11 = [(4, 3)].
Proof.
  pose (run := create_feature_maximizer Small.resize Small.autograd Small.adam_rule
                 Small.rng Small.model (FeatureVisualizer_init Small.model)
                 1 3 1 0%R 2 1 (6 # 5) Small.world).
  assert (Er : fst run = Raise IndexError) by (vm_compute; reflexivity).
  assert (E : run = (Raise IndexError, snd run))
    by (rewrite <- Er; apply surjective_pairing).
  exists (snd run). split; [exact E|].
  destruct (maximizer_on_exception
              Small.resize Small.autograd Small.adam_rule Small.rng
              Small.model (FeatureVisualizer_init Small.model)
              1 3 1 0%R 2 1 (6 # 5) Small.world IndexError (snd run)
              small_wf_hooks small_wf_model small_distinct E) as (Hdata & _).
  split; [apply Hdata; simpl; lia|].
  vm_compute. reflexivity.
Defined.


(** X5. A call of [get_mean_layer_activations], whatever its outcome, does not
    change what a later call of [create_feature_maximizer] returns or
    raises: a hook that the first call left behind appends to a list that
    the second never reads. *)
Theorem maximizer_after_mean_activations
        resize autograd adam_rule rng PILImage Image_open Resize ToTensor
        model self path li0 imsize0 li ki n b imsize us uf w r w1 :
  wf_hooks w -> wf_model w (self_model self) ->
  distinct_modules (self_model self) ->
  wf_model w model -> distinct_modules model ->
  get_mean_layer_activations PILImage Image_open Resize ToTensor
                             self path li0 imsize0 w = (r, w1) ->
  fst (create_feature_maximizer resize autograd adam_rule rng
                                model self li ki n b imsize us uf w1)
  = fst (create_feature_maximizer resize autograd adam_rule rng
                                  model self li ki n b imsize us uf w).
Proof.
  intros Hwf Hws Hds Hwm Hd Hrun.
  destruct (get_mean_layer_activations_run PILImage Image_open Resize ToTensor
              self path li0 imsize0 (w_data w) w Hwf Hws Hds)
    as (w' & E & Hdata & Hnext & Hwf' & _).
  - intros m p _ _. reflexivity.
  - rewrite Hrun in E. inversion E; subst w'.
    rewrite (create_feature_maximizer_total resize autograd adam_rule rng
               model self li ki n b imsize us uf (w_data w) w1).
    + symmetry. apply create_feature_maximizer_total; try assumption.
      intros m p _ _. reflexivity.
    + exact Hwf'.
    + intros m p Hm Hp. apply (Hwm m p Hm) in Hp. lia.
    + exact Hd.
    + intros m p Hm Hp. apply Hdata. exact (Hwm m p Hm Hp).
Qed.

Lemma maximizer_after_mean_activations_witness :
  fst (create_feature_maximizer Small.resize Small.autograd Small.adam_rule Small.rng
         Small.model (FeatureVisualizer_init Small.broken) 1 0 1 0%R 2 1 (6 # 5)
         (snd (get_mean_layer_activations Small.PILImage Small.Image_open
                 Small.Resize Small.ToTensor (FeatureVisualizer_init Small.broken)
                 Files.cat_jpg 0 2 Small.world)))
  = fst (create_feature_maximizer Small.resize Small.autograd Small.adam_rule
           Small.rng Small.model (FeatureVisualizer_init Small.broken)
           1 0 1 0%R 2 1 (6 # 5) Small.world).
Proof.
  apply (maximizer_after_mean_activations
           Small.resize Small.autograd Small.adam_rule Small.rng
           Small.PILImage Small.Image_open Small.Resize Small.ToTensor
           Small.model (FeatureVisualizer_init Small.broken) Files.cat_jpg 0 2
           1 0 1 0%R 2 1 (6 # 5) Small.world
           (fst (get_mean_layer_activations Small.PILImage Small.Image_open
                   Small.Resize Small.ToTensor (FeatureVisualizer_init Small.broken)
                   Files.cat_jpg 0 2 Small.world))).
  - exact small_wf_hooks.
  - exact small_wf_broken.
  - exact small_distinct_broken.
  - exact small_wf_model.
  - exact small_distinct.
  - apply surjective_pairing.
Defined.

(** X6. [get_mean_layer_activations] does not convert the image it opens to
    three channels: for an image that [ToTensor] turns into a tensor with
    another number of channels, [Normalize] raises and so does the method,
    before the model is touched. *)
Theorem mean_layer_activations_need_three_channels
        PILImage Image_open Resize ToTensor self path li imsize w
        image resized x c h wd :
  Image_open path = Ok image ->
  Resize imsize image = Ok resized ->
  ToTensor resized = Ok x ->
  shape x = [c; h; wd] -> c <> 3 ->
  get_mean_layer_activations PILImage Image_open Resize ToTensor
                             self path li imsize w
  = (Raise RuntimeError,
     set_next (set_lists w (upd (w_lists w) (w_next w) [])) (S (w_next w))).
Proof.
  intros Eopen Eres Ex Hs Hc.
  unfold get_mean_layer_activations.
  rewrite (bind_run new_list _ w _ _ eq_refl).
  match goal with |- context [bind (image_loader _ _ _ _ _ _) _ ?w1] =>
    pose proof (image_loader_outcome PILImage Image_open Resize ToTensor
                  imsize path w1) as Himg
  end.
  rewrite Eopen in Himg. cbn [rbind] in Himg.
  unfold loader in Himg. rewrite Eres in Himg. cbn [rbind] in Himg.
  rewrite Ex in Himg. cbn [rbind] in Himg.
  unfold Normalize in Himg. rewrite Hs in Himg.
  apply Nat.eqb_neq in Hc. rewrite Hc in Himg.
  now rewrite (bind_raise _ _ _ _ _ Himg).
Qed.

Lemma mean_layer_activations_need_three_channels_witness :
  fst (get_mean_layer_activations Small.PILImage (Small.open_as Small.gray)
         Small.Resize Small.ToTensor (FeatureVisualizer_init Small.model)
         Files.cat_jpg 1 2 Small.world)
  = Raise RuntimeError.
Proof.
  rewrite (mean_layer_activations_need_three_channels
             Small.PILImage (Small.open_as Small.gray) Small.Resize Small.ToTensor
             (FeatureVisualizer_init Small.model) Files.cat_jpg 1 2 Small.world
             Small.gray Small.gray
             {| shape := [1; 2; 2];
                get := fun idx =>
                  Rdiv (match idx with
                        | [i; j; k] => get Small.gray [j; k; i]
                        | _ => 0%R
                        end) 255 |}
             1 2 2 eq_refl eq_refl eq_refl eq_refl).
  - reflexivity.
  - lia.
Defined.


(** X7. [get_mean_layer_activations] squeezes the output of the layer before it
    takes the mean over the axes 1 and 2: when fewer than three axes of
    that output have an extent other than one (a feature map of one row or
    one column, a layer of one channel), the method raises [AxisError]. *)
Theorem mean_layer_activations_need_three_axes
        PILImage Image_open Resize ToTensor self path li imsize w
        image t layer v act :
  wf_hooks w -> wf_model w (self_model self) ->
  distinct_modules (self_model self) ->
  Image_open path = Ok image ->
  loader PILImage Resize ToTensor imsize image = Ok t ->
  py_getitem (features (self_model self)) li = Ok layer ->
  forward_through (w_data w) (modules (self_model self)) (unsqueeze0 t) = Ok v ->
  layer_activation (w_data w) (self_model self) li (unsqueeze0 t) = Ok act ->
  length (shape (squeeze act)) < 3 ->
  fst (get_mean_layer_activations PILImage Image_open Resize ToTensor
                                  self path li imsize w)
  = Raise AxisError.
Proof.
  intros Hwf Hwm Hd Eopen Eload Eget Efw Eact Hlen.
  destruct (get_mean_layer_activations_run PILImage Image_open Resize ToTensor
              self path li imsize (w_data w) w Hwf Hwm Hd) as (w' & E & _).
  - intros m p _ _. reflexivity.
  - rewrite E. unfold mean_layer_activations_outcome.
    rewrite Eopen. cbn [rbind fst]. rewrite Eload. cbn [rbind].
    rewrite Eget. cbn [rbind]. rewrite Efw. cbn [rbind].
    rewrite Eact. cbn [rbind].
    unfold mean_axis12.
    destruct (shape (squeeze act)) as [|c [|h [|wd rest]]]; try reflexivity.
    simpl in Hlen. lia.
Qed.

Lemma mean_layer_activations_need_three_axes_witness :
  fst (get_mean_layer_activations Small.PILImage (Small.open_as Small.line)
         Small.Resize Small.ToTensor (FeatureVisualizer_init Small.model)
         Files.cat_jpg 1 2 Small.world)
  = Raise AxisError.
Proof.
  eapply (mean_layer_activations_need_three_axes
            Small.PILImage (Small.open_as Small.line) Small.Resize Small.ToTensor
            (FeatureVisualizer_init Small.model) Files.cat_jpg 1 2 Small.world).
  - exact small_wf_hooks.
  - exact small_wf_model.
  - exact small_distinct.
  - reflexivity.
  - reflexivity.
  - reflexivity.
  - reflexivity.
  - reflexivity.
  - simpl. lia.
Defined.

(** X8. With [imsize = 1] [create_feature_maximizer] always raises, whatever
    the model and the other arguments: the squeeze drops the two axes of
    the image of side one, so the transposition of the first stage raises
    [ValueError], and without a stage [np.moveaxis] raises [AxisError]. *)
Theorem maximizer_of_side_one
        resize autograd adam_rule rng model self li ki n b us uf w :
  fst (create_feature_maximizer resize autograd adam_rule rng
                                model self li ki n b 1 us uf w)
  = Raise match us with
          | O => AxisError
          | S _ => ValueError
          end.
Proof.
  unfold create_feature_maximizer.
  rewrite (bind_run (new_leaf _) _ w _ _ eq_refl).
  destruct us as [|us].
  - cbn [range seq for_each]. unfold bind, ret, numpy, lift.
    cbn [fst w_data set_next set_grad set_data]. rewrite upd_same. reflexivity.
  - cbn [range seq for_each].
    match goal with |- fst (bind (bind (upscaling_step ?r ?a ?ad ?m ?l ?k ?n0 ?s ?u ?j ?i) ?f1) ?f2 ?w1) = _ =>
      assert (E : upscaling_step r a ad m l k n0 s u j i w1 = (Raise ValueError, w1));
      [|now rewrite (bind_raise _ f2 _ _ _ (bind_raise _ f1 _ _ _ E))]
    end.
    unfold upscaling_step.
    match goal with |- context [bind (numpy ?i) _ ?w1] =>
      rewrite (bind_run (numpy i) _ w1 _ _ eq_refl)
    end.
    rewrite bind_lift.
    cbn [w_data set_next set_grad set_data]. rewrite upd_same. reflexivity.
Qed.

(** X9. With [n_steps = 0] [create_feature_maximizer] does not look at the
    model, at the indices or at [self]: its run is the same for any two
    choices of them. *)
Theorem maximizer_without_steps
        resize autograd adam_rule rng model model' self self' li li' ki ki' b b'
        imsize us uf w :
  create_feature_maximizer resize autograd adam_rule rng
                           model self li ki 0 b imsize us uf w
  = create_feature_maximizer resize autograd adam_rule rng
                             model' self' li' ki' 0 b' imsize us uf w.
Proof. reflexivity. Qed.

(** X10. A [kernel_index] outside the channels of the layer is found at the
    first optimisation step, where the indexing of the hooked output raises
    [IndexError]. *)
Theorem kernel_index_out_of_range
        resize autograd adam_rule rng model self li ki n b imsize us uf w
        x0 layer v y nb c rest :
  wf_hooks w -> wf_model w model -> distinct_modules model ->
  upscale resize imsize uf 0 (unsqueeze0 (random_image rng imsize)) = Ok x0 ->
  py_getitem (features model) li = Ok layer ->
  forward_through (w_data w) (modules model) x0 = Ok v ->
  layer_activation (w_data w) model li x0 = Ok y ->
  shape y = nb :: c :: rest ->
  ~ (- Z.of_nat c <= ki < Z.of_nat c)%Z ->
  fst (create_feature_maximizer resize autograd adam_rule rng
                                model self li ki (S n) b imsize (S us) uf w)
  = Raise IndexError.
Proof.
  intros Hwf Hwm Hd Ex0 Eget Efw Ey Hs Hki.
  rewrite (create_feature_maximizer_total resize autograd adam_rule rng
             model self li ki (S n) b imsize (S us) uf (w_data w) w Hwf Hwm Hd).
  2:{ intros m p _ _. reflexivity. }
  unfold maximizer_outcome. cbn [range seq checked_stages].
  unfold checked_stage. rewrite Ex0. cbn [rbind checked_steps fst].
  unfold step_check. rewrite Eget. cbn [rbind]. rewrite Efw. cbn [rbind].
  unfold mean_activation. rewrite Ey. cbn [rbind].
  unfold index_0_k. rewrite Hs.
  destruct ((0 <? Z.of_nat nb)%Z && (- Z.of_nat c <=? ki)%Z && (ki <? Z.of_nat c)%Z)
    eqn:E; [|reflexivity].
  apply andb_prop in E. destruct E as [E E3].
  apply andb_prop in E. destruct E as [_ E2].
  apply Z.leb_le in E2. apply Z.ltb_lt in E3. lia.
Qed.

Lemma kernel_index_out_of_range_witness :
  fst (create_feature_maximizer Small.resize Small.autograd Small.adam_rule Small.rng
         Small.model (FeatureVisualizer_init Small.model) 1 3 1 0%R 2 1 (6 # 5)
         Small.world)
  = Raise IndexError.
Proof.
  eapply (kernel_index_out_of_range
            Small.resize Small.autograd Small.adam_rule Small.rng
            Small.model (FeatureVisualizer_init Small.model) 1 3 0 0%R 2 0 (6 # 5)
            Small.world).
  - exact small_wf_hooks.
  - exact small_wf_model.
  - exact small_distinct.
  - reflexivity.
  - reflexivity.
  - reflexivity.
  - reflexivity.
  - reflexivity.
  - simpl. lia.
Defined.


Lemma steps_forwards model n :
  length (filter is_forward (concat (repeat (step_events model) n))) = n
  /\ length (filter is_resize (concat (repeat (step_events model) n))) = 0.
Proof.
  induction n as [|n [IH1 IH2]]; [split; reflexivity|].
  cbn [repeat concat]. rewrite !filter_app, !length_app, IH1, IH2.
  split; reflexivity.
Qed.

Lemma stages_forwards model n imsize uf js :
  length (filter is_forward
                 (concat (map (stage_events model n imsize uf) js)))
  = length js * n
  /\ length (filter is_resize
                    (concat (map (stage_events model n imsize uf) js)))
     = length js.
Proof.
  induction js as [|j js [IH1 IH2]]; [split; reflexivity|].
  cbn [map concat]. rewrite !filter_app, !length_app, IH1, IH2.
  unfold stage_events. cbn [filter is_forward is_resize length].
  destruct (steps_forwards model n) as [-> ->].
  split; simpl; lia.
Qed.

(** X11. A run of [create_feature_maximizer] that returns has called the model
    [upscaling_steps * n_steps] times and skimage's [resize]
    [upscaling_steps] times. *)
Theorem maximizer_counts
        resize autograd adam_rule rng model self li ki n b imsize us uf w r w' :
  wf_hooks w ->
  create_feature_maximizer resize autograd adam_rule rng
                           model self li ki n b imsize us uf w = (Ok r, w') ->
  exists l,
    w_log w' = w_log w ++ l
    /\ length (filter is_forward l) = us * n
    /\ length (filter is_resize l) = us.
Proof.
  intros Hwf Hrun.
  destruct (create_feature_maximizer_frame resize autograd adam_rule rng
              model self li ki n b imsize us uf w r w' Hwf Hrun)
    as (_ & _ & _ & Hlog & _).
  exists (run_events model n imsize us uf). split; [exact Hlog|].
  unfold run_events.
  destruct (stages_forwards model n imsize uf (range us)) as [-> ->].
  unfold range. rewrite length_seq. split; reflexivity.
Qed.

Lemma maximizer_counts_witness :
  exists r w' l,
    create_feature_maximizer Small.resize Small.autograd Small.adam_rule Small.rng
      Small.model (FeatureVisualizer_init Small.model) 0 0 2 (1 / 10)%R 2 2 (6 # 5)
      Small.world = (Ok r, w')
    /\ w_log w' = w_log Small.world ++ l
    /\ length (filter is_forward l) = 4
    /\ length (filter is_resize l) = 2.
Proof.
  assert (Hs : succeeds (create_feature_maximizer
                           Small.resize Small.autograd Small.adam_rule Small.rng
                           Small.model (FeatureVisualizer_init Small.model)
                           0 0 2 (1 / 10)%R 2 2 (6 # 5) Small.world) = true)
    by (vm_compute; reflexivity).
  destruct (succeeds_run _ Hs) as (r & w' & E).
  destruct (maximizer_counts
              Small.resize Small.autograd Small.adam_rule Small.rng
              Small.model (FeatureVisualizer_init Small.model)
              0 0 2 (1 / 10)%R 2 2 (6 # 5) Small.world r w' small_wf_hooks E)
    as (l & Hl & Hf & Hr).
  exists r, w', l. repeat split; assumption.
Defined.

(** X12. The normalisation that ends [create_feature_maximizer] is idempotent:
    applied to an image it returned, it gives the same values back on every
    channel that was not constant. *)
Theorem renormalize_idempotent img h w r c :
  shape img = [h; w; 3] -> renormalize img = Ok r ->
  c < 3 -> std2 h w (channel img c) <> 0%R ->
  exists r',
    renormalize r = Ok r'
    /\ shape r' = shape r
    /\ forall i j, get r' [i; j; c] = get r [i; j; c].
Proof.
  intros Hs Hr Hc Hsd.
  destruct (renormalize_spec img h w Hs) as (r0 & Er0 & Hs0 & Hch0).
  rewrite Hr in Er0. injection Er0 as <-.
  destruct (renormalize_spec r h w Hs0) as (r' & Er' & Hs' & Hch').
  exists r'. split; [exact Er'|]. split; [now rewrite Hs', Hs0|].
  intros i j.
  change (get r' [i; j; c]) with (channel r' c i j).
  change (get r [i; j; c]) with (channel r c i j).
  rewrite Hch'. unfold rescaled at 1.
  rewrite std2_centred. rewrite Hch0.
  assert (Hpos : (0 < get imagenet_std [c])%R).
  { destruct c as [|[|[|c]]]; [simpl; lra | simpl; lra | simpl; lra | lia]. }
  rewrite rescaled_mean by exact Hsd.
  rewrite rescaled_std by (try exact Hsd; lra).
  field. lra.
Qed.

Lemma small_cat_std :
  std2 2 2 (channel Small.cat 0) <> 0%R.
Proof.
  apply Rgt_not_eq. unfold std2. apply sqrt_lt_R0.
  unfold mean2, sum2, Rsqr, channel. simpl. lra.
Qed.

Lemma renormalize_idempotent_witness :
  exists r r',
    renormalize Small.cat = Ok r
    /\ renormalize r = Ok r'
    /\ forall i j, get r' [i; j; 0] = get r [i; j; 0].
Proof.
  destruct (renormalize_spec Small.cat 2 2 eq_refl) as (r & Er & _).
  destruct (renormalize_idempotent Small.cat 2 2 r 0 eq_refl Er) as (r' & Er' & _ & H).
  - lia.
  - exact small_cat_std.
  - exists r, r'. repeat split; assumption.
Defined.




Section Wrap.

Variable resize : ndarray -> Z -> Z -> result ndarray.
Variable autograd : (ndarray -> R) -> ndarray -> ndarray.
Variable adam_rule : R -> R -> nat -> R -> R -> R -> R -> R * R * R.
Variable rng : list nat -> Z.

Lemma py_getitem_wrap {A} (l : list A) i :
  (- Z.of_nat (length l) <= i < 0)%Z ->
  py_getitem l (i + Z.of_nat (length l)) = py_getitem l i
  /\ position l (i + Z.of_nat (length l)) = position l i.
Proof.
  intros H. unfold py_getitem, position.
  assert (Hm : ((i + Z.of_nat (length l)) mod Z.of_nat (length l)
                = i mod Z.of_nat (length l))%Z).
  { rewrite <- (Z_mod_plus_full i 1 (Z.of_nat (length l))). f_equal. lia. }
  rewrite Hm. split; [|reflexivity].
  assert (E1 : ((- Z.of_nat (length l) <=? i + Z.of_nat (length l))
                && (i + Z.of_nat (length l) <? Z.of_nat (length l)))%Z = true).
  { apply andb_true_iff. split; [apply Z.leb_le | apply Z.ltb_lt]; lia. }
  assert (E2 : ((- Z.of_nat (length l) <=? i) && (i <? Z.of_nat (length l)))%Z = true).
  { apply andb_true_iff. split; [apply Z.leb_le | apply Z.ltb_lt]; lia. }
  now rewrite E1, E2.
Qed.

Section SameLayer.

Variables (d : nat -> ndarray) (model : Model) (li li' ki : Z).
Hypothesis Hget : py_getitem (features model) li' = py_getitem (features model) li.
Hypothesis Hpos : position (features model) li' = position (features model) li.

Lemma step_check_same_layer x :
  step_check d model li' ki x = step_check d model li ki x.
Proof.
  unfold step_check, mean_activation, layer_activation. now rewrite Hget, Hpos.
Qed.

Lemma loss_function_same_layer :
  loss_function d model li' ki = loss_function d model li ki.
Proof.
  apply functional_extensionality. intros x.
  unfold loss_function, mean_activation, layer_activation. now rewrite Hpos.
Qed.

Lemma checked_steps_same_layer lr wd n : forall s,
  checked_steps autograd adam_rule lr wd d model li' ki n s
  = checked_steps autograd adam_rule lr wd d model li ki n s.
Proof.
  induction n as [|n IH]; intros s; [reflexivity|].
  cbn [checked_steps]. rewrite step_check_same_layer.
  unfold ascent_step. rewrite loss_function_same_layer.
  destruct (step_check d model li ki (fst s)); cbn [rbind]; [apply IH | reflexivity].
Qed.

Lemma checked_stages_same_layer n imsize uf js : forall x,
  checked_stages resize autograd adam_rule d model li' ki n imsize uf js x
  = checked_stages resize autograd adam_rule d model li ki n imsize uf js x.
Proof.
  induction js as [|j js IH]; intros x; [reflexivity|].
  cbn [checked_stages]. unfold checked_stage.
  destruct (upscale resize imsize uf j x) as [x0|e]; cbn [rbind]; [|reflexivity].
  rewrite checked_steps_same_layer.
  destruct (checked_steps autograd adam_rule (1 / 10) (1 / 1000000) d model li ki n
                          (x0, adam_initial)); cbn [rbind]; [apply IH | reflexivity].
Qed.

End SameLayer.

End Wrap.

(** X14. A negative [layer_index] counts from the end of [model.features]:
    [create_feature_maximizer] has the same outcome for [layer_index] and
    for [layer_index + len(model.features)]. *)
Theorem maximizer_negative_layer_index
        resize autograd adam_rule rng model self li ki n b imsize us uf w :
  wf_hooks w -> wf_model w model -> distinct_modules model ->
  (- Z.of_nat (length (features model)) <= li < 0)%Z ->
  fst (create_feature_maximizer resize autograd adam_rule rng model self
         (li + Z.of_nat (length (features model))) ki n b imsize us uf w)
  = fst (create_feature_maximizer resize autograd adam_rule rng model self
           li ki n b imsize us uf w).
Proof.
  intros Hwf Hwm Hd Hli.
  destruct (py_getitem_wrap (features model) li Hli) as (Hget & Hpos).
  rewrite !(create_feature_maximizer_total resize autograd adam_rule rng model self
              _ ki n b imsize us uf (w_data w) w Hwf Hwm Hd
              (fun m p _ _ => eq_refl)).
  unfold maximizer_outcome.
  now rewrite (checked_stages_same_layer resize autograd adam_rule
                 (w_data w) model li _ ki Hget Hpos).
Qed.

Lemma maximizer_negative_layer_index_witness :
  fst (create_feature_maximizer Small.resize Small.autograd Small.adam_rule Small.rng
         Small.model (FeatureVisualizer_init Small.model) 1 0 1 0%R 2 1 (6 # 5)
         Small.world)
  = fst (create_feature_maximizer Small.resize Small.autograd Small.adam_rule
           Small.rng Small.model (FeatureVisualizer_init Small.model)
           (-1) 0 1 0%R 2 1 (6 # 5) Small.world).
Proof.
  apply (maximizer_negative_layer_index
           Small.resize Small.autograd Small.adam_rule Small.rng
           Small.model (FeatureVisualizer_init Small.model) (-1) 0 1 0%R 2 1 (6 # 5)
           Small.world small_wf_hooks small_wf_model small_distinct).
  simpl. lia.
Defined.

(** X15. A negative [layer_index] counts from the end of
    [self.model.features]: [get_mean_layer_activations] has the same
    outcome for [layer_index] and for
    [layer_index + len(self.model.features)]. *)
Theorem mean_activations_negative_layer_index
        PILImage Image_open Resize ToTensor self path li imsize w :
  wf_hooks w -> wf_model w (self_model self) ->
  distinct_modules (self_model self) ->
  (- Z.of_nat (length (features (self_model self))) <= li < 0)%Z ->
  fst (get_mean_layer_activations PILImage Image_open Resize ToTensor self path
         (li + Z.of_nat (length (features (self_model self)))) imsize w)
  = fst (get_mean_layer_activations PILImage Image_open Resize ToTensor self path
           li imsize w).
Proof.
  intros Hwf Hwm Hd Hli.
  destruct (py_getitem_wrap (features (self_model self)) li Hli) as (Hget & Hpos).
  destruct (get_mean_layer_activations_run PILImage Image_open Resize ToTensor
              self path li imsize (w_data w) w Hwf Hwm Hd
              (fun m p _ _ => eq_refl)) as (w1 & E1 & _).
  destruct (get_mean_layer_activations_run PILImage Image_open Resize ToTensor
              self path (li + Z.of_nat (length (features (self_model self))))
              imsize (w_data w) w Hwf Hwm Hd
              (fun m p _ _ => eq_refl)) as (w2 & E2 & _).
  rewrite E1, E2. cbn [fst].
  unfold mean_layer_activations_outcome, layer_activation.
  now rewrite Hget, Hpos.
Qed.

Lemma mean_activations_negative_layer_index_witness :
  fst (get_mean_layer_activations Small.PILImage Small.Image_open Small.Resize
         Small.ToTensor (FeatureVisualizer_init Small.model)
         Files.cat_jpg 1 2 Small.world)
  = fst (get_mean_layer_activations Small.PILImage Small.Image_open Small.Resize
           Small.ToTensor (FeatureVisualizer_init Small.model)
           Files.cat_jpg (-1) 2 Small.world).
Proof.
  apply (mean_activations_negative_layer_index
           Small.PILImage Small.Image_open Small.Resize Small.ToTensor
           (FeatureVisualizer_init Small.model) Files.cat_jpg (-1) 2
           Small.world small_wf_hooks small_wf_model small_distinct).
  simpl. lia.
Defined.


Section Shared.

(** A forward pass of a model one of whose layers carries exactly one hook
    on the list [r], no layer before it carrying any: the first tensor the
    list gets is the output of that layer, whatever the later layers add. *)
Lemma call_model_first_hook model pre layer post r x w y w' :
  features model = pre ++ layer :: post ->
  (forall m, In m pre -> ~ In r (map snd (w_hooks w (m_id m)))) ->
  count_occ Nat.eq_dec (map snd (w_hooks w (m_id layer))) r = 1 ->
  call_model model x w = (Ok y, w') ->
  exists out more,
    w_lists w' r = w_lists w r ++ out :: more
    /\ forward_through (w_data w) (pre ++ [layer]) (t_val x) = Ok (t_val out)
    /\ w_data w' = w_data w /\ w_hooks w' = w_hooks w /\ w_next w' = w_next w.
Proof.
  intros Hf Hpre Hone Hrun.
  unfold call_model in Hrun. rewrite Hf in Hrun.
  replace (pre ++ layer :: post) with (pre ++ [layer] ++ post) in Hrun by reflexivity.
  apply bind_Ok in Hrun. destruct Hrun as (u & w0 & Elog & Hrun).
  apply bind_Ok in Hrun. destruct Hrun as (y3 & w3 & Eseq & Hhead).
  rewrite sequential_app in Eseq.
  apply bind_Ok in Eseq. destruct Eseq as (y1 & w1 & Epre & Eseq).
  simpl in Eseq.
  apply bind_Ok in Eseq. destruct Eseq as (out & w2 & Elayer & Epost).
  unfold log in Elog. inversion Elog; subst; clear Elog.
  apply sequential_spec in Epre. destruct Epre as (S1 & F1 & L1 & G1 & Ls1).
  apply call_module_spec in Elayer. destruct Elayer as (S2 & F2 & L2 & G2 & Ls2).
  apply sequential_frame in Epost. destruct Epost as (S3 & _ & Ls3).
  apply call_module_frame in Hhead. destruct Hhead as (S4 & _ & Ls4).
  destruct S1 as (d1 & g1 & h1 & n1 & l1).
  destruct S2 as (d2 & g2 & h2 & n2 & l2).
  destruct S3 as (d3 & g3 & h3 & n3 & l3).
  destruct S4 as (d4 & g4 & h4 & n4 & l4).
  simpl in d1, g1, h1, n1, l1.
  rewrite d1 in *. rewrite h1 in *.
  rewrite d2, h2 in *. rewrite d3, h3 in *.
  simpl in F1, Ls1.
  destruct (Ls3 r) as (m3 & E3 & _). destruct (Ls4 r) as (m4 & E4 & _).
  exists out, (m3 ++ m4).
  split.
  { rewrite E4, E3, Ls2, Ls1 by exact Hpre. simpl. rewrite Hone. simpl.
    rewrite <- !app_assoc. reflexivity. }
  split.
  { rewrite forward_through_app, F1. simpl. now rewrite F2. }
  repeat split; congruence.
Qed.

End Shared.

(** X16. When the module at [layer_index] is an object that occurs in the
    features more than once, its hook fires at each occurrence and
    [outputs[0]] is the output at the first one:
    [get_mean_layer_activations] returns the channel means of the layer
    where the module first occurs. *)
Theorem mean_activations_of_shared_module
        PILImage Image_open Resize ToTensor self path li imsize w arr w'
        pre layer post layer' :
  wf_hooks w -> wf_model w (self_model self) ->
  features (self_model self) = pre ++ layer :: post ->
  (forall m, In m pre -> m_id m <> m_id layer) ->
  py_getitem (features (self_model self)) li = Ok layer' ->
  m_id layer' = m_id layer ->
  get_mean_layer_activations PILImage Image_open Resize ToTensor
                             self path li imsize w = (Ok arr, w') ->
  exists image t act,
    Image_open path = Ok image
    /\ loader PILImage Resize ToTensor imsize image = Ok t
    /\ forward_through (w_data w) (pre ++ [layer]) (unsqueeze0 t) = Ok act
    /\ mean_axis12 (squeeze act) = Ok arr.
Proof.
  intros Hwf Hwm Hf Hfirst Eget0 Hid Hrun. unfold get_mean_layer_activations in Hrun.
  apply bind_Ok in Hrun. destruct Hrun as (outs & w1 & Enew & Hrun).
  unfold new_list in Enew. inversion Enew; subst outs w1; clear Enew.
  apply bind_Ok in Hrun. destruct Hrun as (img & w1 & Eimg & Hrun).
  rewrite image_loader_outcome in Eimg.
  destruct (Image_open path) as [image|e]; [|discriminate].
  cbn [rbind] in Eimg.
  destruct (loader PILImage Resize ToTensor imsize image) as [t|e] eqn:Eload;
    [|discriminate].
  inversion Eimg; subst img w1; clear Eimg.
  apply bind_Ok in Hrun. destruct Hrun as (l0 & w1 & Eget & Hrun).
  apply lift_Ok in Eget. destruct Eget as [Eget ->].
  rewrite Eget0 in Eget. injection Eget as <-.
  apply bind_Ok in Hrun. destruct Hrun as (hk & w2 & Ereg & Hrun).
  unfold register_forward_hook in Ereg. inversion Ereg; subst hk w2; clear Ereg.
  apply bind_Ok in Hrun. destruct Hrun as (y & w3 & Ecall & Hrun).
  apply bind_Ok in Hrun. destruct Hrun as (u & w4 & Erem & Hrun).
  unfold remove in Erem. inversion Erem; subst u w4; clear Erem.
  apply bind_Ok in Hrun. destruct Hrun as (out0 & w5 & Eout & Hrun).
  apply lift_Ok in Hrun. destruct Hrun as [Hmean ->].
  eapply call_model_first_hook with (r := w_next w) in Ecall; [ | exact Hf | | ].
  - destruct Ecall as (out & more & Hl & Hfw & _).
    simpl in Hl, Hfw. rewrite upd_same in Hl. simpl in Hl.
    unfold list_getitem in Eout. simpl in Eout. rewrite Hl in Eout.
    inversion Eout; subst out0 w5; clear Eout.
    exists image, t, (t_val out).
    split; [reflexivity|]. split; [exact Eload|]. split; [|exact Hmean].
    rewrite <- Hfw. apply forward_through_ext. intros m p Hm Hp. symmetry.
    apply upd_other. apply Nat.lt_neq.
    assert (p < w_next w); [|lia].
    apply (Hwm m p); [|exact Hp].
    unfold modules. rewrite Hf. apply in_or_app. left.
    apply in_app_or in Hm. apply in_or_app.
    destruct Hm as [Hm|[<-|[]]]; [now left | right; now left].
  - simpl. intros m Hm. rewrite Hid.
    rewrite upd_other by (apply Hfirst; exact Hm).
    now apply fresh_not_hooked.
  - simpl. rewrite Hid. rewrite upd_same, map_app. simpl. rewrite count_occ_snoc.
    destruct (Nat.eq_dec (w_next w) (w_next w)); [|contradiction].
    assert (Hc : count_occ Nat.eq_dec (map snd (w_hooks w (m_id layer))) (w_next w) = 0)
      by (apply count_occ_not_In; now apply fresh_not_hooked).
    rewrite Hc. reflexivity.
Qed.

Lemma small_wf_shared : wf_model Small.world Small.shared.
Proof.
  intros md p Hm Hp. simpl in Hm.
  destruct Hm as [<-|[<-|[<-|[<-|[]]]]]; simpl in Hp;
    repeat (destruct Hp as [<-|Hp]; [simpl; lia|]); destruct Hp.
Qed.

Lemma mean_activations_of_shared_module_witness :
  exists arr w' t act,
    get_mean_layer_activations Small.PILImage Small.Image_open Small.Resize
      Small.ToTensor (FeatureVisualizer_init Small.shared)
      Files.cat_jpg 2 2 Small.world = (Ok arr, w')
    /\ loader Small.PILImage Small.Resize Small.ToTensor 2 Small.cat = Ok t
    /\ forward_through (w_data Small.world) [Small.scale 10 0] (unsqueeze0 t) = Ok act
    /\ mean_axis12 (squeeze act) = Ok arr.
Proof.
  assert (Hs : succeeds (get_mean_layer_activations
                           Small.PILImage Small.Image_open Small.Resize
                           Small.ToTensor (FeatureVisualizer_init Small.shared)
                           Files.cat_jpg 2 2 Small.world) = true)
    by (vm_compute; reflexivity).
  destruct (succeeds_run _ Hs) as (arr & w' & E).
  destruct (mean_activations_of_shared_module
              Small.PILImage Small.Image_open Small.Resize Small.ToTensor
              (FeatureVisualizer_init Small.shared) Files.cat_jpg 2 2
              Small.world arr w'
              [] (Small.scale 10 0) [Small.identity 11; Small.scale 10 0]
              (Small.scale 10 0)
              small_wf_hooks small_wf_shared eq_refl
              (fun m (H : In m []) => False_ind _ H) eq_refl eq_refl E)
    as (image & t & act & Eopen & Eload & Efw & Emean).
  injection Eopen as <-.
  exists arr, w', t, act. repeat split; assumption.
Defined.

(** X17. In an optimisation step of [create_feature_maximizer], when the
    module at [layer_index] is an object that also occurs earlier in the
    features, its hook fires at each occurrence and [outputs[0]] is the
    output at the first one: the loss is the negated mean of channel
    [kernel_index] of the output of the layer where that module first
    occurs. *)
Theorem loss_of_shared_module
        model li ki img w hook outputs loss w' pre layer post layer' :
  wf_hooks w ->
  features model = pre ++ layer :: post ->
  (forall m, In m pre -> m_id m <> m_id layer) ->
  py_getitem (features model) li = Ok layer' ->
  m_id layer' = m_id layer ->
  forward_loss model li ki img w = (Ok (hook, outputs, loss), w') ->
  exists act a,
    forward_through (w_data w) (pre ++ [layer]) (w_data w img) = Ok act
    /\ index_0_k act ki = Ok a
    /\ t_val loss = neg (mean_all a).
Proof.
  intros Hwf Hf Hfirst Eget0 Hid Hrun. unfold forward_loss in Hrun.
  apply bind_Ok in Hrun. destruct Hrun as (outs & w1 & Enew & Hrun).
  unfold new_list in Enew. inversion Enew; subst outs w1; clear Enew.
  apply bind_Ok in Hrun. destruct Hrun as (l0 & w1 & Eget & Hrun).
  apply lift_Ok in Eget. destruct Eget as [Eget ->].
  rewrite Eget0 in Eget. injection Eget as <-.
  apply bind_Ok in Hrun. destruct Hrun as (hk & w2 & Ereg & Hrun).
  unfold register_forward_hook in Ereg. inversion Ereg; subst hk w2; clear Ereg.
  apply bind_Ok in Hrun. destruct Hrun as (x & w2 & Eleaf & Hrun).
  unfold leaf in Eleaf. inversion Eleaf; subst x w2; clear Eleaf.
  apply bind_Ok in Hrun. destruct Hrun as (y & w3 & Ecall & Hrun).
  apply bind_Ok in Hrun. destruct Hrun as (out0 & w4 & Eout & Hrun).
  apply bind_Ok in Hrun. destruct Hrun as (act & w5 & Eact & Hrun).
  apply lift_Ok in Eact. destruct Eact as [Eact ->].
  apply bind_Ok in Hrun. destruct Hrun as (mn & w5 & Emean & Hrun).
  apply lift_Ok in Emean. destruct Emean as [Emean ->].
  apply bind_Ok in Hrun. destruct Hrun as (ls & w5 & Eloss & Hrun).
  apply lift_Ok in Eloss. destruct Eloss as [Eloss ->].
  apply ret_Ok in Hrun. destruct Hrun as [Hrun ->].
  inversion Hrun; subst hook outputs loss; clear Hrun.
  eapply call_model_first_hook with (r := w_next w) in Ecall; [ | exact Hf | | ].
  - destruct Ecall as (out & more & Hl & Hfw & _).
    simpl in Hl, Hfw. rewrite upd_same in Hl. simpl in Hl.
    unfold list_getitem in Eout. rewrite Hl in Eout.
    inversion Eout; subst out0 w4; clear Eout.
    unfold tensor_map in Eact, Emean, Eloss.
    apply rbind_Ok in Eact. destruct Eact as (va & Eidx & Eact).
    inversion Eact; subst act; clear Eact.
    simpl in Emean. inversion Emean; subst mn; clear Emean.
    simpl in Eloss. inversion Eloss; subst ls; clear Eloss.
    exists (t_val out), va. simpl.
    split; [exact Hfw|]. split; [exact Eidx | reflexivity].
  - simpl. intros m Hm. rewrite Hid.
    rewrite upd_other by (apply Hfirst; exact Hm).
    now apply fresh_not_hooked.
  - simpl. rewrite Hid. rewrite upd_same, map_app. simpl. rewrite count_occ_snoc.
    destruct (Nat.eq_dec (w_next w) (w_next w)); [|contradiction].
    assert (Hc : count_occ Nat.eq_dec (map snd (w_hooks w (m_id layer))) (w_next w) = 0)
      by (apply count_occ_not_In; now apply fresh_not_hooked).
    rewrite Hc. reflexivity.
Qed.

Lemma loss_of_shared_module_witness :
  exists hook outputs loss w' act a,
    forward_loss Small.shared 2 0 1 Small.start = (Ok (hook, outputs, loss), w')
    /\ forward_through (w_data Small.start) [Small.scale 10 0] (w_data Small.start 1)
       = Ok act
    /\ index_0_k act 0 = Ok a
    /\ t_val loss = neg (mean_all a).
Proof.
  assert (Hs : succeeds (forward_loss Small.shared 2 0 1 Small.start) = true)
    by (vm_compute; reflexivity).
  destruct (succeeds_run _ Hs) as ([[hook outputs] loss] & w' & E).
  destruct (loss_of_shared_module
              Small.shared 2 0 1 Small.start hook outputs loss w'
              [] (Small.scale 10 0) [Small.identity 11; Small.scale 10 0]
              (Small.scale 10 0)
              small_wf_start eq_refl
              (fun m (H : In m []) => False_ind _ H) eq_refl eq_refl E)
    as (act & a & Efw & Eidx & Eloss).
  exists hook, outputs, loss, w', act, a. repeat split; assumption.
Defined.
